(** * The Matrix Terraform provider: configuration cycle

    A shallow embedding of [internal/provider/provider.go] and a
    verification of its configuration-resolution and diagnostics engine.

    The provider's [Configure] method mutates the response it is handed,
    reads the process environment, derives logging contexts and calls the
    Matrix client library.  It is embedded as a state-passing function with
    an early-return flow, over a state made of the response and of the
    world around the provider (environment, client heap, call trace). *)

From stdpp Require Import base strings list gmap.

Set Default Proof Using "Type".

(** ** terraform-plugin-framework: [types.String]

    A string attribute is null, unknown (known only after apply) or a
    known value.  [ValueString] is the empty string for the first two. *)

Inductive types_String : Type :=
| StringNull
| StringUnknown
| StringValue (value : string).

Definition IsNull (v : types_String) : bool :=
  match v with StringNull => true | _ => false end.

Definition IsUnknown (v : types_String) : bool :=
  match v with StringUnknown => true | _ => false end.

Definition ValueString (v : types_String) : string :=
  match v with StringValue s => s | _ => "" end.

(** [MatrixProviderModel] describes the provider data model. *)
Record MatrixProviderModel : Type := {
  ClientServerUrl : types_String;
  DefaultAccessToken : types_String;
  DefaultUserID : types_String
}.

(** ** terraform-plugin-framework: [path] and [diag] *)

Inductive path_Path : Type :=
| path_Root (name : string).

Inductive diag_Severity : Type :=
| SeverityError
| SeverityWarning.

Record Diagnostic : Type := {
  Severity : diag_Severity;
  Path : option path_Path;
  Summary : string;
  Detail : string
}.

#[global] Instance path_Path_eq_dec : EqDecision path_Path.
Proof. solve_decision. Defined.

#[global] Instance diag_Severity_eq_dec : EqDecision diag_Severity.
Proof. solve_decision. Defined.

#[global] Instance Diagnostic_eq_dec : EqDecision Diagnostic.
Proof. solve_decision. Defined.

Definition NewAttributeErrorDiagnostic
    (p : path_Path) (summary detail : string) : Diagnostic :=
  {| Severity := SeverityError; Path := Some p;
     Summary := summary; Detail := detail |}.

Definition NewErrorDiagnostic (summary detail : string) : Diagnostic :=
  {| Severity := SeverityError; Path := None;
     Summary := summary; Detail := detail |}.

Definition is_error (d : Diagnostic) : bool :=
  match Severity d with SeverityError => true | SeverityWarning => false end.

(** [Diagnostics.Contains]: some entry equals [d]. *)
Definition Contains (diags : list Diagnostic) (d : Diagnostic) : bool :=
  bool_decide (d ∈ diags).

(** [Diagnostics.Append]: entries already contained are skipped, the others
    are added at the end, in order. *)
Definition Append (diags ins : list Diagnostic) : list Diagnostic :=
  foldl (λ acc d, if Contains acc d then acc else acc ++ [d]) diags ins.

Definition AddAttributeError
    (diags : list Diagnostic) (p : path_Path) (summary detail : string)
    : list Diagnostic :=
  Append diags [NewAttributeErrorDiagnostic p summary detail].

Definition AddError (diags : list Diagnostic) (summary detail : string)
    : list Diagnostic :=
  Append diags [NewErrorDiagnostic summary detail].

Definition HasError (diags : list Diagnostic) : bool :=
  existsb is_error diags.

(** ** [tfsdk.Config] and the request

    The framework decodes the raw configuration into the model by
    reflection.  A configuration that matches the schema decodes without
    diagnostics; otherwise [Get] reports diagnostics and leaves its target
    at the zero value, whose fields are null. *)

Inductive tfsdk_Config : Type :=
| Decodable (model : MatrixProviderModel)
| Undecodable (diags : list Diagnostic).

Definition zero_MatrixProviderModel : MatrixProviderModel :=
  {| ClientServerUrl := StringNull;
     DefaultAccessToken := StringNull;
     DefaultUserID := StringNull |}.

Definition Config_Get (c : tfsdk_Config)
    : list Diagnostic * MatrixProviderModel :=
  match c with
  | Decodable model => ([], model)
  | Undecodable diags => (diags, zero_MatrixProviderModel)
  end.

Record ConfigureRequest : Type := {
  Config : tfsdk_Config
}.

(** ** terraform-plugin-log: [tflog]

    A context carries the provider logger's fields and the keys whose
    values are masked.  Contexts are immutable: every operation derives a
    new one.  At emission the context's fields are merged with the call's
    additional fields (which take precedence) and every value under a
    masked key is replaced by asterisks. *)

Inductive FieldValue : Type :=
| VString (s : string)
| VBool (b : bool).

Record context_Context : Type := {
  LoggerFields : gmap string FieldValue;
  LoggerMaskFieldValuesWithFieldKeys : list string
}.

Definition context_Background : context_Context :=
  {| LoggerFields := ∅; LoggerMaskFieldValuesWithFieldKeys := [] |}.

Definition SetField (ctx : context_Context) (key : string) (v : FieldValue)
    : context_Context :=
  {| LoggerFields := <[key := v]> (LoggerFields ctx);
     LoggerMaskFieldValuesWithFieldKeys :=
       LoggerMaskFieldValuesWithFieldKeys ctx |}.

Definition MaskFieldValuesWithFieldKeys
    (ctx : context_Context) (keys : list string) : context_Context :=
  {| LoggerFields := LoggerFields ctx;
     LoggerMaskFieldValuesWithFieldKeys :=
       LoggerMaskFieldValuesWithFieldKeys ctx ++ keys |}.

Definition masked_value : FieldValue := VString "***".

Definition ApplyMask (keys : list string) (fields : gmap string FieldValue)
    : gmap string FieldValue :=
  map_imap
    (λ k v, Some (if bool_decide (k ∈ keys) then masked_value else v))
    fields.

(** The fields one emission on [ctx] renders. *)
Definition emitted_fields
    (ctx : context_Context) (additionalFields : gmap string FieldValue)
    : gmap string FieldValue :=
  ApplyMask (LoggerMaskFieldValuesWithFieldKeys ctx)
            (additionalFields ∪ LoggerFields ctx).

Inductive log_Level : Type :=
| LevelDebug
| LevelInfo.

(** ** Go results and the world around the provider *)

(** A Go [error], as the message its [Error()] method returns. *)
Definition error : Type := string.

Inductive go_result (A : Type) : Type :=
| Ok (a : A)
| Err (err : error).

Arguments Ok {A} a.
Arguments Err {A} err.

(** The line feed of Go's ["\n"]. *)
Definition newline : string := String (Ascii.ascii_of_nat 10) EmptyString.

(** A [*gomatrix.Client]: the address of a client in the heap. *)
Definition ptr : Type := nat.

(** The calls the provider makes to the logging and client libraries. *)
Inductive Call : Type :=
| CallSetField (key : string) (v : FieldValue)
| CallMaskFieldValuesWithFieldKeys (keys : list string)
| CallLog (level : log_Level) (msg : string)
          (fields : gmap string FieldValue)
| CallNewClient (homeserverURL userID accessToken : string)
                (res : go_result ptr).

Definition is_NewClient (c : Call) : bool :=
  match c with CallNewClient _ _ _ _ => true | _ => false end.

Definition is_Log (c : Call) : bool :=
  match c with CallLog _ _ _ => true | _ => false end.

Record ConfigureResponse : Type := {
  Diagnostics : list Diagnostic;
  DataSourceData : option ptr;
  ResourceData : option ptr
}.

(** The zero value [provider.ConfigureResponse{}] the framework passes. *)
Definition zero_ConfigureResponse : ConfigureResponse :=
  {| Diagnostics := []; DataSourceData := None; ResourceData := None |}.

(** [os.Getenv]: the variable's value, empty if the variable is not
    present. *)
Definition Getenv (env : gmap string string) (key : string) : string :=
  default "" (env !! key).

(** Early return: a statement either falls through to the next one or has
    executed [return]. *)
Inductive Flow (A : Type) : Type :=
| Next (a : A)
| Returned.

Arguments Next {A} a.
Arguments Returned {A}.

Section provider.

(** [gomatrix.NewClient] belongs to the client library: it is a parameter,
    given by the client it builds from its three arguments or the error it
    fails with. *)
Context {Client : Type}.
Variable NewClient_outcome : string → string → string → go_result Client.

Record State : Type := {
  resp : ConfigureResponse;
  environ : gmap string string;
  clients : list Client;
  calls : list Call
}.

Definition M (A : Type) : Type := State → Flow A * State.

#[local] Instance M_ret : MRet M := λ A a st, (Next a, st).

#[local] Instance M_bind : MBind M := λ A B f m st,
  match m st with
  | (Next a, st') => f a st'
  | (Returned, st') => (Returned, st')
  end.

Definition go_return {A : Type} : M A := λ st, (Returned, st).

Definition when (b : bool) (m : M unit) : M unit :=
  if b then m else mret tt.

Definition modify_resp (f : ConfigureResponse → ConfigureResponse) : M unit :=
  λ st, (Next tt,
         {| resp := f (resp st); environ := environ st;
            clients := clients st; calls := calls st |}).

Definition record_call (c : Call) : M unit :=
  λ st, (Next tt,
         {| resp := resp st; environ := environ st;
            clients := clients st; calls := calls st ++ [c] |}).

Definition with_Diagnostics
    (f : list Diagnostic → list Diagnostic) (r : ConfigureResponse)
    : ConfigureResponse :=
  {| Diagnostics := f (Diagnostics r);
     DataSourceData := DataSourceData r;
     ResourceData := ResourceData r |}.

Definition resp_Diagnostics_Append (ins : list Diagnostic) : M unit :=
  modify_resp (with_Diagnostics (λ diags, Append diags ins)).

Definition resp_Diagnostics_AddAttributeError
    (p : path_Path) (summary detail : string) : M unit :=
  modify_resp
    (with_Diagnostics (λ diags, AddAttributeError diags p summary detail)).

Definition resp_Diagnostics_AddError (summary detail : string) : M unit :=
  modify_resp (with_Diagnostics (λ diags, AddError diags summary detail)).

Definition resp_Diagnostics_HasError : M bool :=
  λ st, (Next (HasError (Diagnostics (resp st))), st).

Definition set_DataSourceData (client : ptr) : M unit :=
  modify_resp (λ r,
    {| Diagnostics := Diagnostics r;
       DataSourceData := Some client;
       ResourceData := ResourceData r |}).

Definition set_ResourceData (client : ptr) : M unit :=
  modify_resp (λ r,
    {| Diagnostics := Diagnostics r;
       DataSourceData := DataSourceData r;
       ResourceData := Some client |}).

Definition os_Getenv (key : string) : M string :=
  λ st, (Next (Getenv (environ st) key), st).

Definition tflog_SetField
    (ctx : context_Context) (key : string) (v : FieldValue)
    : M context_Context :=
  record_call (CallSetField key v);;
  mret (SetField ctx key v).

Definition tflog_MaskFieldValuesWithFieldKeys
    (ctx : context_Context) (keys : list string) : M context_Context :=
  record_call (CallMaskFieldValuesWithFieldKeys keys);;
  mret (MaskFieldValuesWithFieldKeys ctx keys).

Definition tflog_Debug
    (ctx : context_Context) (msg : string)
    (additionalFields : gmap string FieldValue) : M unit :=
  record_call (CallLog LevelDebug msg (emitted_fields ctx additionalFields)).

Definition tflog_Info
    (ctx : context_Context) (msg : string)
    (additionalFields : gmap string FieldValue) : M unit :=
  record_call (CallLog LevelInfo msg (emitted_fields ctx additionalFields)).

(** [gomatrix.NewClient]: on success the new client is allocated at a fresh
    address, which is returned. *)
Definition gomatrix_NewClient (homeserverURL userID accessToken : string)
    : M (go_result ptr) :=
  λ st,
    match NewClient_outcome homeserverURL userID accessToken with
    | Ok c =>
        let p := length (clients st) in
        (Next (Ok p),
         {| resp := resp st; environ := environ st;
            clients := clients st ++ [c];
            calls := calls st ++
                     [CallNewClient homeserverURL userID accessToken (Ok p)] |})
    | Err err =>
        (Next (Err err),
         {| resp := resp st; environ := environ st;
            clients := clients st;
            calls := calls st ++
                     [CallNewClient homeserverURL userID accessToken
                                    (Err err)] |})
    end.

(** ** [Configure] *)

(** Lines 106-120: default values to environment variables, but override
    with the Terraform configuration value if set.  The result is
    [(client_server_url, default_access_token, default_user_id)]. *)
Definition resolve_fields (config : MatrixProviderModel)
    : M (string * string * string) :=
  client_server_url ← os_Getenv "MATRIX_CLIENT_SERVER_URL";
  default_access_token ← os_Getenv "MATRIX_DEFAULT_ACCESS_TOKEN";
  default_user_id ← os_Getenv "MATRIX_DEFAULT_USERID";
  let client_server_url :=
    if negb (IsNull (ClientServerUrl config))
    then ValueString (ClientServerUrl config) else client_server_url in
  let default_access_token :=
    if negb (IsNull (DefaultAccessToken config))
    then ValueString (DefaultAccessToken config) else default_access_token in
  let default_user_id :=
    if negb (IsNull (DefaultUserID config))
    then ValueString (DefaultUserID config) else default_user_id in
  mret (client_server_url, default_access_token, default_user_id).

Definition Configure (ctx : context_Context) (req : ConfigureRequest)
    : M unit :=
  let '(diags, config) := Config_Get (Config req) in
  resp_Diagnostics_Append diags;;

  e ← resp_Diagnostics_HasError;
  when e go_return;;

  when (IsUnknown (ClientServerUrl config))
    (resp_Diagnostics_AddAttributeError
       (path_Root "client_server_url")
       "Unknown Matrix Server URL"
       ("The provider cannot create the Matrix API client as there is an unknown configuration value for the Matrix API host. " +:+
        "Either target apply the source of the value first, set the value statically in the configuration, or use the MATRIX_CLIENT_SERVER_URL environment variable."));;

  when (IsUnknown (DefaultAccessToken config))
    (resp_Diagnostics_AddAttributeError
       (path_Root "default_access_token")
       "Unknown Default Access Token"
       ("The provider cannot create the Matrix API client as there is an unknown configuration value for the default AccessToken. " +:+
        "Either target apply the source of the value first, set the value statically in the configuration, or use the MATRIX_DEFAULT_ACCESS_TOKEN environment variable."));;

  when (IsUnknown (DefaultUserID config))
    (resp_Diagnostics_AddAttributeError
       (path_Root "default_user_id")
       "Unknown Default User ID"
       ("The provider cannot create the Matrix API client as there is an unknown configuration value for the default UserID. " +:+
        "Either target apply the source of the value first, set the value statically in the configuration, or use the MATRIX_DEFAULT_USERID environment variable."));;

  e ← resp_Diagnostics_HasError;
  when e go_return;;

  '(client_server_url, default_access_token, default_user_id) ←
    resolve_fields config;

  when (String.eqb client_server_url "")
    (resp_Diagnostics_AddAttributeError
       (path_Root "client_server_url")
       "Missing Matrix Server URL"
       ("The provider cannot create the Matrix API client as there is a missing or empty value for the Matrix API host. " +:+
        "Set the client_server_url value in the configuration or use the MATRIX_CLIENT_SERVER_URL environment variable. " +:+
        "If either is already set, ensure the value is not empty."));;

  when (String.eqb default_access_token "")
    (resp_Diagnostics_AddAttributeError
       (path_Root "default_access_token")
       "Missing Default Access Token"
       ("The provider cannot create the Matrix API client as there is a missing or empty value for the default AccessToken. " +:+
        "Set the default_access_token value in the configuration or use the MATRIX_DEFAULT_ACCESS_TOKEN environment variable. " +:+
        "If either is already set, ensure the value is not empty."));;

  when (String.eqb default_user_id "")
    (resp_Diagnostics_AddAttributeError
       (path_Root "default_user_id")
       "Missing Default UserID"
       ("The provider cannot create the Matrix API client as there is a missing or empty value for the default UserID. " +:+
        "Set the default_user_id value in the configuration or use the MATRIX_DEFAULT_USERID environment variable. " +:+
        "If either is already set, ensure the value is not empty."));;

  e ← resp_Diagnostics_HasError;
  when e go_return;;

  ctx ← tflog_SetField ctx "client_server_url" (VString client_server_url);
  ctx ← tflog_SetField ctx "default_access_token"
                       (VString default_access_token);
  ctx ← tflog_SetField ctx "default_user_id" (VString default_user_id);
  ctx ← tflog_MaskFieldValuesWithFieldKeys ctx ["default_access_token"];

  tflog_Debug ctx "Creating Matrix client" ∅;;

  r ← gomatrix_NewClient client_server_url default_user_id
                         default_access_token;
  match r with
  | Err err =>
      resp_Diagnostics_AddError
        "Unable to Create Matrix API Client"
        ("An unexpected error occurred when creating the Matrix API client. " +:+
         "If the error is not clear, please contact the provider developers." +:+
         newline +:+ newline +:+
         "Matrix Client Error: " +:+ err);;
      go_return
  | Ok client =>
      set_DataSourceData client;;
      set_ResourceData client;;
      tflog_Info ctx "Configured Matrix client" {[ "success" := VBool true ]}
  end.

(** One configuration cycle: the framework calls [Configure] with a zero
    response; the cycle's call trace starts empty. *)
Definition initial_State (env : gmap string string) (heap : list Client)
    : State :=
  {| resp := zero_ConfigureResponse; environ := env;
     clients := heap; calls := [] |}.

Definition configure_cycle
    (ctx : context_Context) (env : gmap string string) (heap : list Client)
    (req : ConfigureRequest) : State :=
  snd (Configure ctx req (initial_State env heap)).

End provider.

(** ** The vocabulary of the specification

    The three configuration fields, the attribute, environment variable and
    wording attached to each, and the diagnostics a cycle can report. *)

Inductive Field : Type :=
| FieldClientServerUrl
| FieldDefaultAccessToken
| FieldDefaultUserID.

Definition all_fields : list Field :=
  [FieldClientServerUrl; FieldDefaultAccessToken; FieldDefaultUserID].

Definition field_value (config : MatrixProviderModel) (f : Field)
    : types_String :=
  match f with
  | FieldClientServerUrl => ClientServerUrl config
  | FieldDefaultAccessToken => DefaultAccessToken config
  | FieldDefaultUserID => DefaultUserID config
  end.

Definition attribute_name (f : Field) : string :=
  match f with
  | FieldClientServerUrl => "client_server_url"
  | FieldDefaultAccessToken => "default_access_token"
  | FieldDefaultUserID => "default_user_id"
  end.

Definition environment_variable (f : Field) : string :=
  match f with
  | FieldClientServerUrl => "MATRIX_CLIENT_SERVER_URL"
  | FieldDefaultAccessToken => "MATRIX_DEFAULT_ACCESS_TOKEN"
  | FieldDefaultUserID => "MATRIX_DEFAULT_USERID"
  end.

Definition subject (f : Field) : string :=
  match f with
  | FieldClientServerUrl => "Matrix API host"
  | FieldDefaultAccessToken => "default AccessToken"
  | FieldDefaultUserID => "default UserID"
  end.

Definition unknown_summary (f : Field) : string :=
  match f with
  | FieldClientServerUrl => "Unknown Matrix Server URL"
  | FieldDefaultAccessToken => "Unknown Default Access Token"
  | FieldDefaultUserID => "Unknown Default User ID"
  end.

Definition missing_summary (f : Field) : string :=
  match f with
  | FieldClientServerUrl => "Missing Matrix Server URL"
  | FieldDefaultAccessToken => "Missing Default Access Token"
  | FieldDefaultUserID => "Missing Default UserID"
  end.

(** The unknown-value diagnostic of a field. *)
Definition unknown_error (f : Field) : Diagnostic :=
  NewAttributeErrorDiagnostic
    (path_Root (attribute_name f))
    (unknown_summary f)
    ("The provider cannot create the Matrix API client as there is an unknown configuration value for the "
     +:+ subject f +:+
     ". Either target apply the source of the value first, set the value statically in the configuration, or use the "
     +:+ environment_variable f +:+ " environment variable.").

(** The missing-value diagnostic of a field. *)
Definition missing_error (f : Field) : Diagnostic :=
  NewAttributeErrorDiagnostic
    (path_Root (attribute_name f))
    (missing_summary f)
    ("The provider cannot create the Matrix API client as there is a missing or empty value for the "
     +:+ subject f +:+ ". Set the " +:+ attribute_name f +:+
     " value in the configuration or use the "
     +:+ environment_variable f +:+
     " environment variable. If either is already set, ensure the value is not empty.").

Definition construction_error_prefix : string :=
  "An unexpected error occurred when creating the Matrix API client. If the error is not clear, please contact the provider developers."
  +:+ newline +:+ newline +:+ "Matrix Client Error: ".

(** The general diagnostic of a failed client construction. *)
Definition construction_error (err : error) : Diagnostic :=
  NewErrorDiagnostic "Unable to Create Matrix API Client"
                     (construction_error_prefix +:+ err).

(** The value a field has after lines 106-120. *)
Definition resolved_value
    (env : gmap string string) (config : MatrixProviderModel) (f : Field)
    : string :=
  if negb (IsNull (field_value config f))
  then ValueString (field_value config f)
  else Getenv env (environment_variable f).

Definition any_unknown (config : MatrixProviderModel) : bool :=
  existsb (λ f, IsUnknown (field_value config f)) all_fields.

Definition unknown_errors (config : MatrixProviderModel) : list Diagnostic :=
  unknown_error <$>
    List.filter (λ f, IsUnknown (field_value config f)) all_fields.

Definition any_empty
    (env : gmap string string) (config : MatrixProviderModel) : bool :=
  existsb (λ f, String.eqb (resolved_value env config f) "") all_fields.

Definition missing_errors
    (env : gmap string string) (config : MatrixProviderModel)
    : list Diagnostic :=
  missing_error <$>
    List.filter (λ f, String.eqb (resolved_value env config f) "") all_fields.

(** The logging context of lines 156-159. *)
Definition logging_context
    (ctx : context_Context)
    (client_server_url default_access_token default_user_id : string)
    : context_Context :=
  MaskFieldValuesWithFieldKeys
    (SetField
       (SetField
          (SetField ctx "client_server_url" (VString client_server_url))
          "default_access_token" (VString default_access_token))
       "default_user_id" (VString default_user_id))
    ["default_access_token"].

(** The calls of lines 156-161, up to the debug emission. *)
Definition logging_calls
    (ctx : context_Context)
    (client_server_url default_access_token default_user_id : string)
    : list Call :=
  [CallSetField "client_server_url" (VString client_server_url);
   CallSetField "default_access_token" (VString default_access_token);
   CallSetField "default_user_id" (VString default_user_id);
   CallMaskFieldValuesWithFieldKeys ["default_access_token"];
   CallLog LevelDebug "Creating Matrix client"
     (emitted_fields
        (logging_context ctx client_server_url default_access_token
                         default_user_id) ∅)].

Section outcome.

Context {Client : Type}.
Variable NewClient_outcome : string → string → string → go_result Client.

(** The state a cycle that started in [st] ends in, given what became of
    the response and which clients and calls were added. *)
Definition end_State
    (st : State (Client := Client))
    (diags : list Diagnostic) (data : option ptr)
    (new_clients : list Client) (new_calls : list Call) : State :=
  {| resp := {| Diagnostics := diags;
                DataSourceData := from_option Some (DataSourceData (resp st)) data;
                ResourceData := from_option Some (ResourceData (resp st)) data |};
     environ := environ st;
     clients := clients st ++ new_clients;
     calls := calls st ++ new_calls |}.

(** The five ways through [Configure], one after the other. *)
Definition Configure_outcome
    (ctx : context_Context) (req : ConfigureRequest) (st : State)
    : Flow unit * State :=
  let config := snd (Config_Get (Config req)) in
  let diags := Append (Diagnostics (resp st)) (fst (Config_Get (Config req))) in
  let v := resolved_value (environ st) config in
  let url := v FieldClientServerUrl in
  let tok := v FieldDefaultAccessToken in
  let uid := v FieldDefaultUserID in
  if HasError diags then
    (Returned, end_State st diags None [] [])
  else if any_unknown config then
    (Returned, end_State st (diags ++ unknown_errors config) None [] [])
  else if any_empty (environ st) config then
    (Returned,
     end_State st (diags ++ missing_errors (environ st) config) None [] [])
  else
    match NewClient_outcome url uid tok with
    | Err err =>
        (Returned,
         end_State st (diags ++ [construction_error err]) None []
           (logging_calls ctx url tok uid ++
            [CallNewClient url uid tok (Err err)]))
    | Ok c =>
        let p := length (clients st) in
        (Next tt,
         end_State st diags (Some p) [c]
           (logging_calls ctx url tok uid ++
            [CallNewClient url uid tok (Ok p);
             CallLog LevelInfo "Configured Matrix client"
               (emitted_fields (logging_context ctx url tok uid)
                               {[ "success" := VBool true ]})]))
    end.

End outcome.

(** The component of a resolved triple that belongs to a field. *)
Definition field_of (vals : string * string * string) (f : Field) : string :=
  let '(client_server_url, default_access_token, default_user_id) := vals in
  match f with
  | FieldClientServerUrl => client_server_url
  | FieldDefaultAccessToken => default_access_token
  | FieldDefaultUserID => default_user_id
  end.

(** The model [Configure] works on: what [Get] left in its target. *)
Definition decoded (req : ConfigureRequest) : MatrixProviderModel :=
  snd (Config_Get (Config req)).

(** Contexts derived from [ctx]: the lineage [tflog] can build from it. *)
Inductive derived_from (ctx : context_Context) : context_Context → Prop :=
| derived_refl : derived_from ctx ctx
| derived_SetField ctx' key v :
    derived_from ctx ctx' → derived_from ctx (SetField ctx' key v)
| derived_MaskFieldValuesWithFieldKeys ctx' keys :
    derived_from ctx ctx' →
    derived_from ctx (MaskFieldValuesWithFieldKeys ctx' keys).

(** ** A client library to run the cycle with

    Clients record what they were built from; construction fails, as URL
    parsing does, on a homeserver URL that starts with a colon. *)

Record example_Client : Type := {
  HomeserverURL : string;
  UserID : string;
  AccessToken : string
}.

Definition example_NewClient (homeserverURL userID accessToken : string)
    : go_result example_Client :=
  if String.prefix ":" homeserverURL
  then Err ("parse " +:+ homeserverURL +:+ ": missing protocol scheme")
  else Ok {| HomeserverURL := homeserverURL;
             UserID := userID;
             AccessToken := accessToken |}.

Definition example_cycle
    (env : gmap string string) (config : MatrixProviderModel)
    : State (Client := example_Client) :=
  configure_cycle example_NewClient context_Background env []
                  {| Config := Decodable config |}.

(** ** The provider value: [New], [Metadata] and [Schema] *)

(** [MatrixProvider] defines the provider implementation. *)
Record MatrixProvider : Type := {
  version : string
}.

Record provider_MetadataResponse : Type := {
  TypeName : string;
  Version : string
}.

(** Lines 38-41: two assignments through the response pointer. *)
Definition Metadata
    (p : MatrixProvider) (resp : provider_MetadataResponse)
    : provider_MetadataResponse :=
  let resp := {| TypeName := "matrix"; Version := Version resp |} in
  {| TypeName := TypeName resp; Version := version p |}.

(** A [schema.StringAttribute]; the fields the provider does not set keep
    their zero value, [false] for [Sensitive]. *)
Record schema_StringAttribute : Type := {
  MarkdownDescription : string;
  Required : bool;
  Sensitive : bool
}.

Record schema_Schema : Type := {
  Attributes : gmap string schema_StringAttribute
}.

Record provider_SchemaResponse : Type := {
  SchemaResponse_Schema : schema_Schema;
  SchemaResponse_Diagnostics : list Diagnostic
}.

(** Lines 43-61. *)
Definition Schema (resp : provider_SchemaResponse) : provider_SchemaResponse :=
  {| SchemaResponse_Schema :=
       {| Attributes :=
            {[ "client_server_url" :=
                 {| MarkdownDescription :=
                      "Address of the matrix server you are acting upon";
                    Required := true;
                    Sensitive := false |};
               "default_access_token" :=
                 {| MarkdownDescription :=
                      "The default access token to use for things like content uploads.";
                    Required := true;
                    Sensitive := true |};
               "default_user_id" :=
                 {| MarkdownDescription :=
                      "The default user id to use for things like content uploads. This must match the access_token";
                    Required := true;
                    Sensitive := false |} ]} |};
     SchemaResponse_Diagnostics := SchemaResponse_Diagnostics resp |}.

(** Lines 192-198: the factory [New] returns builds, at every call, a
    provider of the given version. *)
Definition New (version : string) : unit → MatrixProvider :=
  λ _, {| version := version |}.

(** The [tfsdk] tags of [MatrixProviderModel], in field order. *)
Definition MatrixProviderModel_tfsdk : list string :=
  ["client_server_url"; "default_access_token"; "default_user_id"].

(** [needle] occurs in [s]. *)
Fixpoint occurs_in (needle s : string) : bool :=
  String.prefix needle s ||
  match s with
  | EmptyString => false
  | String _ s' => occurs_in needle s'
  end.

(** Running [Configure] from a state. *)
Definition run_Configure {Client : Type}
    (NewClient_outcome : string → string → string → go_result Client)
    (ctx : context_Context) (req : ConfigureRequest)
    (st : State (Client := Client)) : State :=
  snd (Configure NewClient_outcome ctx req st).

(** The configuration of the repository's example ([main.tf]). *)
Definition example_config : MatrixProviderModel :=
  {| ClientServerUrl := StringValue "https://matrix.org";
     DefaultAccessToken := StringValue "MDAxSomeRandomString";
     DefaultUserID := StringValue "@meow:matrix.org" |}.

Definition example_request : ConfigureRequest :=
  {| Config := Decodable example_config |}.

(** The zero value [provider.SchemaResponse{}]. *)
Definition zero_SchemaResponse : provider_SchemaResponse :=
  {| SchemaResponse_Schema := {| Attributes := ∅ |};
     SchemaResponse_Diagnostics := [] |}.

(** * Verification *)

(** ** The diagnostics collection *)

Lemma Append_nil (diags : list Diagnostic) : Append diags [] = diags.
Proof. reflexivity. Qed.

Lemma Append_fresh (diags : list Diagnostic) (d : Diagnostic) :
  d ∉ diags → Append diags [d] = diags ++ [d].
Proof.
  intros Hd. unfold Append, Contains. simpl.
  by rewrite bool_decide_eq_false_2.
Qed.

Lemma HasError_app (diags1 diags2 : list Diagnostic) :
  HasError (diags1 ++ diags2) = HasError diags1 || HasError diags2.
Proof. apply existsb_app. Qed.

Lemma HasError_false_not_elem (diags : list Diagnostic) (d : Diagnostic) :
  HasError diags = false → is_error d = true → d ∉ diags.
Proof.
  intros Hnone Hd Hin.
  assert (HasError diags = true) as Hsome; [|congruence].
  apply existsb_exists. exists d. split; [|done].
  by apply list_elem_of_In.
Qed.

Lemma AddAttributeError_app
    (diags added : list Diagnostic) (p : path_Path) (summary detail : string) :
  HasError diags = false →
  NewAttributeErrorDiagnostic p summary detail ∉ added →
  AddAttributeError (diags ++ added) p summary detail
  = diags ++ added ++ [NewAttributeErrorDiagnostic p summary detail].
Proof.
  intros Hnone Hnew. unfold AddAttributeError.
  rewrite Append_fresh, <- app_assoc; [done|].
  rewrite elem_of_app. intros [Hin|Hin]; [|done].
  by apply (HasError_false_not_elem diags) in Hin.
Qed.

Lemma AddAttributeError_fresh
    (diags : list Diagnostic) (p : path_Path) (summary detail : string) :
  HasError diags = false →
  AddAttributeError diags p summary detail
  = diags ++ [NewAttributeErrorDiagnostic p summary detail].
Proof.
  intros Hnone. unfold AddAttributeError. apply Append_fresh.
  by apply HasError_false_not_elem.
Qed.

Lemma AddError_fresh (diags : list Diagnostic) (summary detail : string) :
  HasError diags = false →
  AddError diags summary detail
  = diags ++ [NewErrorDiagnostic summary detail].
Proof.
  intros Hnone. unfold AddError. apply Append_fresh.
  by apply HasError_false_not_elem.
Qed.

Lemma HasError_app_errors (diags added : list Diagnostic) :
  HasError added = true → HasError (diags ++ added) = true.
Proof. intros Hadded. rewrite HasError_app, Hadded. apply orb_true_r. Qed.

Section outcome_correct.

Context {Client : Type}.
Variable NewClient_outcome : string → string → string → go_result Client.

Ltac crunch :=
  cbv beta iota zeta delta
    [Configure mbind mret M_bind M_ret when go_return
     resp_Diagnostics_Append resp_Diagnostics_AddAttributeError
     resp_Diagnostics_AddError resp_Diagnostics_HasError
     modify_resp with_Diagnostics set_DataSourceData set_ResourceData
     record_call resolve_fields os_Getenv tflog_SetField
     tflog_MaskFieldValuesWithFieldKeys tflog_Debug tflog_Info
     gomatrix_NewClient resp environ clients calls Diagnostics
     DataSourceData ResourceData fst snd Config
     ClientServerUrl DefaultAccessToken DefaultUserID
     end_State from_option any_unknown any_empty existsb all_fields
     field_value orb resolved_value environment_variable Config_Get
     zero_MatrixProviderModel missing_errors unknown_errors List.filter
     fmap list_fmap].

Ltac not_among :=
  apply (bool_decide_unpack _); vm_compute; exact I.

Ltac add_error Hnone :=
  rewrite ?(AddAttributeError_fresh _ _ _ _ Hnone);
  rewrite ?(AddAttributeError_app _ _ _ _ _ Hnone) by not_among.

Ltac checkpoint Hnone :=
  add_error Hnone;
  rewrite ?HasError_app_errors by reflexivity; rewrite ?Hnone; crunch;
  try (rewrite ?app_nil_r; reflexivity).

(** [Configure] does what [Configure_outcome] says, from every state. *)
Lemma Configure_eq_outcome ctx req st :
  Configure NewClient_outcome ctx req st
  = Configure_outcome NewClient_outcome ctx req st.
Proof.
  destruct req as [cfg]. unfold Configure_outcome.
  destruct st as [[D dsd rd] env heap cs].
  destruct cfg as [[u t i]|ds]; crunch.
  all: match goal with
       | |- context [HasError (Append ?D0 ?ds)] =>
           destruct (HasError (Append D0 ds)) eqn:He
       end; [by rewrite !app_nil_r|]; crunch.
  all: repeat match goal with
       | |- context [if IsUnknown ?x then _ else _] =>
           destruct (IsUnknown x) eqn:?
       end; crunch; checkpoint He.
  all: repeat match goal with
       | |- context [String.eqb ?x ""] => destruct (String.eqb x "") eqn:?
       end; crunch; checkpoint He.
  all: match goal with
       | |- context [NewClient_outcome ?a ?b ?c] =>
           destruct (NewClient_outcome a b c) as [c0|err]
       end; crunch; rewrite ?(AddError_fresh _ _ _ He);
    unfold logging_calls, logging_context;
    rewrite <- ?app_assoc, ?app_nil_r;
    reflexivity.
Qed.

End outcome_correct.

(** ** One cycle, from the zero response *)

Section cycle.

Context {Client : Type}.
Variable NewClient_outcome : string → string → string → go_result Client.

Lemma configure_cycle_outcome ctx env heap req :
  configure_cycle NewClient_outcome ctx env heap req
  = snd (Configure_outcome NewClient_outcome ctx req
           (initial_State env heap)).
Proof. unfold configure_cycle. by rewrite Configure_eq_outcome. Qed.

(** A structured configuration with an unknown field: only the
    unknown-value diagnostics, nothing else happened. *)
Lemma cycle_unknown ctx env heap config :
  any_unknown config = true →
  configure_cycle NewClient_outcome ctx env heap
    {| Config := Decodable config |}
  = end_State (initial_State env heap) (unknown_errors config) None [] [].
Proof.
  intros Hunknown. rewrite configure_cycle_outcome.
  unfold Configure_outcome. simpl. by rewrite Hunknown.
Qed.

(** No unknown field, but an empty resolved value: only the missing-value
    diagnostics. *)
Lemma cycle_missing ctx env heap config :
  any_unknown config = false →
  any_empty env config = true →
  configure_cycle NewClient_outcome ctx env heap
    {| Config := Decodable config |}
  = end_State (initial_State env heap) (missing_errors env config) None [] [].
Proof.
  intros Hknown Hempty. rewrite configure_cycle_outcome.
  unfold Configure_outcome. simpl. by rewrite Hknown, Hempty.
Qed.

(** Every field known and non-empty: the outcome is the client
    library's. *)
Lemma cycle_constructing ctx env heap config :
  any_unknown config = false →
  any_empty env config = false →
  let url := resolved_value env config FieldClientServerUrl in
  let tok := resolved_value env config FieldDefaultAccessToken in
  let uid := resolved_value env config FieldDefaultUserID in
  configure_cycle NewClient_outcome ctx env heap
    {| Config := Decodable config |}
  = match NewClient_outcome url uid tok with
    | Err err =>
        end_State (initial_State env heap) [construction_error err] None []
          (logging_calls ctx url tok uid ++
           [CallNewClient url uid tok (Err err)])
    | Ok c =>
        end_State (initial_State env heap) [] (Some (length heap)) [c]
          (logging_calls ctx url tok uid ++
           [CallNewClient url uid tok (Ok (length heap));
            CallLog LevelInfo "Configured Matrix client"
              (emitted_fields (logging_context ctx url tok uid)
                              {[ "success" := VBool true ]})])
    end.
Proof.
  intros Hknown Hfull. rewrite configure_cycle_outcome.
  unfold Configure_outcome. simpl. rewrite Hknown, Hfull.
  by destruct (NewClient_outcome _ _ _).
Qed.

End cycle.

Lemma any_unknown_true config :
  any_unknown config = true ↔ ∃ f, IsUnknown (field_value config f) = true.
Proof.
  unfold any_unknown. rewrite existsb_exists. split.
  - intros (f & _ & Hf). eauto.
  - intros [f Hf]. exists f. split; [|done]. destruct f; simpl; auto.
Qed.

Lemma any_empty_true env config :
  any_empty env config = true ↔ ∃ f, resolved_value env config f = "".
Proof.
  unfold any_empty. rewrite existsb_exists. split.
  - intros (f & _ & Hf). exists f. by apply String.eqb_eq.
  - intros [f Hf]. exists f. split; [destruct f; simpl; auto|].
    by apply String.eqb_eq.
Qed.

Lemma all_fields_complete (f : Field) : f ∈ all_fields.
Proof. destruct f; unfold all_fields; set_solver. Qed.

Lemma unknown_error_inj f g : unknown_error f = unknown_error g → f = g.
Proof. by destruct f, g. Qed.

Lemma missing_error_inj f g : missing_error f = missing_error g → f = g.
Proof. by destruct f, g. Qed.

Lemma elem_of_unknown_errors config f :
  unknown_error f ∈ unknown_errors config
  ↔ IsUnknown (field_value config f) = true.
Proof.
  unfold unknown_errors. rewrite list_elem_of_fmap. split.
  - intros (g & Heq & Hg). apply unknown_error_inj in Heq as ->.
    apply list_elem_of_In, filter_In in Hg. tauto.
  - intros Hf. exists f. split; [done|].
    apply list_elem_of_In, filter_In. split; [|done].
    apply list_elem_of_In, all_fields_complete.
Qed.

Lemma elem_of_missing_errors env config f :
  missing_error f ∈ missing_errors env config
  ↔ resolved_value env config f = "".
Proof.
  unfold missing_errors. rewrite list_elem_of_fmap. split.
  - intros (g & Heq & Hg). apply missing_error_inj in Heq as ->.
    apply list_elem_of_In, filter_In in Hg as [_ Hg].
    by apply String.eqb_eq.
  - intros Hf. exists f. split; [done|].
    apply list_elem_of_In, filter_In. split.
    + apply list_elem_of_In, all_fields_complete.
    + by apply String.eqb_eq.
Qed.

Lemma missing_error_not_unknown f config :
  missing_error f ∉ unknown_errors config.
Proof.
  unfold unknown_errors. rewrite list_elem_of_fmap.
  intros (g & Heq & _). by destruct f, g.
Qed.

Lemma missing_error_not_construction f err :
  missing_error f ≠ construction_error err.
Proof. by destruct f. Qed.

Lemma HasError_unknown_errors config :
  any_unknown config = true → HasError (unknown_errors config) = true.
Proof.
  intros [f Hf]%any_unknown_true.
  apply existsb_exists. exists (unknown_error f). split; [|done].
  by apply list_elem_of_In, elem_of_unknown_errors.
Qed.

Lemma HasError_missing_errors env config :
  any_empty env config = true → HasError (missing_errors env config) = true.
Proof.
  intros [f Hf]%any_empty_true.
  apply existsb_exists. exists (missing_error f). split; [|done].
  by apply list_elem_of_In, elem_of_missing_errors.
Qed.

(** ** The environment *)

Lemma Getenv_unset_or_empty (env : gmap string string) (key k : string) :
  Getenv (delete key env) k = Getenv (<[key := ""]> env) k.
Proof.
  unfold Getenv. destruct (decide (key = k)) as [->|Hne].
  - by rewrite lookup_delete_eq, lookup_insert_eq.
  - by rewrite lookup_delete_ne, lookup_insert_ne.
Qed.

Lemma resolved_value_ext env1 env2 config f :
  (∀ k, Getenv env1 k = Getenv env2 k) →
  resolved_value env1 config f = resolved_value env2 config f.
Proof. intros Henv. unfold resolved_value. by rewrite Henv. Qed.

Lemma any_empty_ext env1 env2 config :
  (∀ k, Getenv env1 k = Getenv env2 k) →
  any_empty env1 config = any_empty env2 config.
Proof.
  intros Henv. unfold any_empty. simpl.
  by rewrite !(resolved_value_ext env1 env2 config _ Henv).
Qed.

Lemma missing_errors_ext env1 env2 config :
  (∀ k, Getenv env1 k = Getenv env2 k) →
  missing_errors env1 config = missing_errors env2 config.
Proof.
  intros Henv. unfold missing_errors. simpl.
  by rewrite !(resolved_value_ext env1 env2 config _ Henv).
Qed.

(** ** The logging context *)

Lemma lookup_emitted_fields ctx additionalFields key :
  emitted_fields ctx additionalFields !! key
  = (λ v, if bool_decide (key ∈ LoggerMaskFieldValuesWithFieldKeys ctx)
          then masked_value else v)
      <$> (additionalFields ∪ LoggerFields ctx) !! key.
Proof.
  unfold emitted_fields, ApplyMask. rewrite map_lookup_imap.
  by destruct ((additionalFields ∪ LoggerFields ctx) !! key).
Qed.

Lemma derived_from_masked ctx ctx' key :
  derived_from ctx ctx' →
  key ∈ LoggerMaskFieldValuesWithFieldKeys ctx →
  key ∈ LoggerMaskFieldValuesWithFieldKeys ctx'.
Proof.
  induction 1 as [|ctx' k v _ IH|ctx' keys _ IH]; intros Hkey; simpl.
  - done.
  - by apply IH.
  - apply elem_of_app. left. by apply IH.
Qed.

Lemma derived_from_field ctx ctx' key :
  derived_from ctx ctx' →
  is_Some (LoggerFields ctx !! key) →
  is_Some (LoggerFields ctx' !! key).
Proof.
  induction 1 as [|ctx' k v _ IH|ctx' keys _ IH]; intros Hkey; simpl.
  - done.
  - destruct (decide (k = key)) as [->|Hne].
    + rewrite lookup_insert_eq. eauto.
    + rewrite lookup_insert_ne by done. by apply IH.
  - by apply IH.
Qed.

Lemma derived_from_emits_masked ctx ctx' additionalFields key :
  derived_from ctx ctx' →
  key ∈ LoggerMaskFieldValuesWithFieldKeys ctx →
  is_Some (LoggerFields ctx !! key) →
  emitted_fields ctx' additionalFields !! key = Some masked_value.
Proof.
  intros Hder Hmask Hfield. rewrite lookup_emitted_fields.
  rewrite bool_decide_eq_true_2 by by eapply derived_from_masked.
  destruct (derived_from_field _ _ _ Hder Hfield) as [v Hv].
  destruct (additionalFields !! key) as [w|] eqn:Hw.
  - by rewrite (lookup_union_Some_l _ _ _ _ Hw).
  - by rewrite lookup_union_r, Hv.
Qed.

Lemma filter_is_error_nil (diags : list Diagnostic) :
  HasError diags = false → List.filter is_error diags = [].
Proof.
  induction diags as [|d diags IH]; simpl; [done|].
  intros [-> Hrest]%orb_false_elim. auto.
Qed.

(** ** Properties of the configuration cycle *)

Section properties.

Context {Client : Type}.
Variable NewClient_outcome : string → string → string → go_result Client.

(** Lines 106-120 compute [resolved_value] for the three fields and leave
    the state as it is. *)
Lemma resolve_fields_resolved_value
    (config : MatrixProviderModel) (st : State (Client := Client)) :
  resolve_fields config st
  = (Next (resolved_value (environ st) config FieldClientServerUrl,
           resolved_value (environ st) config FieldDefaultAccessToken,
           resolved_value (environ st) config FieldDefaultUserID),
     st).
Proof. reflexivity. Qed.

(** The calls of a cycle: none, or the logging calls followed by the one
    construction attempt and, if it succeeds, the final emission. *)
Lemma cycle_calls ctx env heap req :
  let st := configure_cycle NewClient_outcome ctx env heap req in
  let v := resolved_value env (decoded req) in
  let url := v FieldClientServerUrl in
  let tok := v FieldDefaultAccessToken in
  let uid := v FieldDefaultUserID in
  (calls st = [] ∧ HasError (Diagnostics (resp st)) = true)
  ∨ (∃ err,
       NewClient_outcome url uid tok = Err err
       ∧ calls st = logging_calls ctx url tok uid ++
                    [CallNewClient url uid tok (Err err)]
       ∧ Diagnostics (resp st)
         = Append [] (fst (Config_Get (Config req))) ++
           [construction_error err]
       ∧ HasError (Append [] (fst (Config_Get (Config req)))) = false
       ∧ clients st = heap
       ∧ DataSourceData (resp st) = None
       ∧ ResourceData (resp st) = None)
  ∨ (∃ c,
       NewClient_outcome url uid tok = Ok c
       ∧ calls st = logging_calls ctx url tok uid ++
                    [CallNewClient url uid tok (Ok (length heap));
                     CallLog LevelInfo "Configured Matrix client"
                       (emitted_fields (logging_context ctx url tok uid)
                                       {[ "success" := VBool true ]})]
       ∧ HasError (Diagnostics (resp st)) = false
       ∧ clients st = heap ++ [c]
       ∧ DataSourceData (resp st) = Some (length heap)
       ∧ ResourceData (resp st) = Some (length heap)).
Proof.
  simpl. rewrite configure_cycle_outcome. unfold Configure_outcome, decoded.
  destruct (HasError (Append _ _)) eqn:He; [by left|].
  destruct (any_unknown _) eqn:Hunknown.
  { left. simpl. split; [done|].
    apply HasError_app_errors. by apply HasError_unknown_errors. }
  destruct (any_empty _ _) eqn:Hempty.
  { left. simpl. split; [done|].
    apply HasError_app_errors. by apply HasError_missing_errors. }
  simpl environ.
  destruct (NewClient_outcome _ _ _) as [c|err] eqn:Hnew.
  - right. right. exists c. simpl in *. by rewrite He.
  - right. left. exists err. simpl in *. by rewrite app_nil_r.
Qed.

(** C1.  For each field whose structured value is not unknown, lines
    106-120 resolve it, without any effect on the state, to the structured
    value when that is concrete, whatever the environment holds, and
    otherwise to the value of the field's environment variable, the empty
    string standing for an absent variable. *)
Theorem structured_value_wins_over_environment
    (st : State (Client := Client)) config f :
  IsUnknown (field_value config f) = false →
  ∃ vals,
    resolve_fields config st = (Next vals, st)
    ∧ field_of vals f
      = match field_value config f with
        | StringValue s => s
        | _ => default "" (environ st !! environment_variable f)
        end.
Proof.
  intros Hknown. eexists. split; [reflexivity|].
  destruct config as [u t i].
  destruct f; simpl in *;
    match goal with
    | H : IsUnknown ?v = false |- _ => by destruct v
    end.
Qed.

(** C2.  Whenever at least one structured field is unknown, the cycle ends
    with exactly the unknown-value diagnostics of the unknown fields, one
    per field and in field order, each an error scoped to the attribute of
    its field; all three fields are examined, and the cycle returns without
    any call to the client library: no client is built and both data slots
    stay empty. *)
Theorem unknown_fields_reported_before_construction
    ctx env heap config :
  (∃ f, IsUnknown (field_value config f) = true) →
  let st := configure_cycle NewClient_outcome ctx env heap
              {| Config := Decodable config |} in
  Diagnostics (resp st)
  = unknown_error <$>
      List.filter (λ f, IsUnknown (field_value config f)) all_fields
  ∧ (∀ f, unknown_error f ∈ Diagnostics (resp st)
          ↔ IsUnknown (field_value config f) = true)
  ∧ (∀ f, Severity (unknown_error f) = SeverityError
          ∧ Path (unknown_error f) = Some (path_Root (attribute_name f)))
  ∧ HasError (Diagnostics (resp st)) = true
  ∧ calls st = []
  ∧ clients st = heap
  ∧ DataSourceData (resp st) = None
  ∧ ResourceData (resp st) = None.
Proof.
  intros Hsome. apply any_unknown_true in Hsome as Hany.
  rewrite (cycle_unknown _ _ _ _ _ Hany). simpl.
  rewrite app_nil_r. repeat split; try done.
  - by apply elem_of_unknown_errors.
  - by apply elem_of_unknown_errors.
  - destruct Hsome as [f Hf].
    apply existsb_exists. exists (unknown_error f). split; [|done].
    by apply list_elem_of_In, elem_of_unknown_errors.
Qed.

(** C3.  The emptiness pass is gated by the unknown-value pass: with an
    unknown field no missing-value diagnostic is reported.  With no unknown
    field, a field has its missing-value diagnostic exactly when its
    resolved value is empty; and if some resolved value is empty, the
    diagnostics are the missing-value diagnostics of all such fields, in
    field order, each an error scoped to its attribute, and the cycle
    returns without any call to the client library. *)
Theorem emptiness_pass_gated_and_cumulative ctx env heap config :
  let st := configure_cycle NewClient_outcome ctx env heap
              {| Config := Decodable config |} in
  (any_unknown config = true →
     ∀ f, missing_error f ∉ Diagnostics (resp st))
  ∧ (any_unknown config = false →
       (∀ f, missing_error f ∈ Diagnostics (resp st)
             ↔ resolved_value env config f = "")
       ∧ ((∃ f, resolved_value env config f = "") →
            Diagnostics (resp st)
            = missing_error <$>
                List.filter
                  (λ f, String.eqb (resolved_value env config f) "")
                  all_fields
            ∧ HasError (Diagnostics (resp st)) = true
            ∧ calls st = []
            ∧ clients st = heap
            ∧ DataSourceData (resp st) = None
            ∧ ResourceData (resp st) = None))
  ∧ (∀ f, Severity (missing_error f) = SeverityError
          ∧ Path (missing_error f) = Some (path_Root (attribute_name f))).
Proof.
  simpl. split; [|split; [|done]].
  - intros Hunknown f. rewrite (cycle_unknown _ _ _ _ _ Hunknown). simpl.
    apply missing_error_not_unknown.
  - intros Hknown.
    destruct (any_empty env config) eqn:Hempty.
    + rewrite (cycle_missing _ _ _ _ _ Hknown Hempty). simpl.
      rewrite app_nil_r. split; [intros f; apply elem_of_missing_errors|].
      intros [f Hf]. repeat split; try done.
      apply existsb_exists. exists (missing_error f). split; [|done].
      by apply list_elem_of_In, elem_of_missing_errors.
    + split.
      * intros f. rewrite (cycle_constructing _ _ _ _ _ Hknown Hempty).
        assert (resolved_value env config f ≠ "") as Hf.
        { intros Hf. assert (any_empty env config = true); [|congruence].
          apply any_empty_true. eauto. }
        destruct (NewClient_outcome _ _ _); simpl; split; try done.
        -- by intros ?%elem_of_nil.
        -- intros ?%list_elem_of_singleton. exfalso.
           by eapply missing_error_not_construction.
      * intros Hsome%any_empty_true. congruence.
Qed.

(** C4.  A cycle ends in exactly one of two ways: with an error among the
    diagnostics, no client built and both data slots empty; or with no
    error among the diagnostics and both data slots holding the address of
    the one client built, from the resolved values, during the cycle. *)
Theorem diagnostics_or_handle_never_both ctx env heap req :
  let st := configure_cycle NewClient_outcome ctx env heap req in
  let v := resolved_value env (decoded req) in
  (HasError (Diagnostics (resp st)) = true
   ∧ DataSourceData (resp st) = None
   ∧ ResourceData (resp st) = None
   ∧ clients st = heap)
  ∨ (HasError (Diagnostics (resp st)) = false
     ∧ ∃ c,
         NewClient_outcome (v FieldClientServerUrl) (v FieldDefaultUserID)
                           (v FieldDefaultAccessToken) = Ok c
         ∧ clients st = heap ++ [c]
         ∧ clients st !! length heap = Some c
         ∧ DataSourceData (resp st) = Some (length heap)
         ∧ ResourceData (resp st) = Some (length heap)).
Proof.
  simpl. rewrite configure_cycle_outcome. unfold Configure_outcome, decoded.
  destruct (HasError (Append _ _)) eqn:He;
    [left; simpl; by rewrite app_nil_r|].
  destruct (any_unknown _) eqn:Hunknown.
  { left. simpl. rewrite app_nil_r. repeat split.
    apply HasError_app_errors. by apply HasError_unknown_errors. }
  destruct (any_empty _ _) eqn:Hempty.
  { left. simpl. rewrite app_nil_r. repeat split.
    apply HasError_app_errors. by apply HasError_missing_errors. }
  simpl environ.
  destruct (NewClient_outcome _ _ _) as [c|err] eqn:Hnew.
  - right. simpl. split; [done|]. exists c. repeat split.
    by rewrite lookup_app_r, Nat.sub_diag.
  - left. simpl. rewrite app_nil_r. repeat split.
    by apply HasError_app_errors.
Qed.

(** C5.  When the construction attempt of a cycle fails, the cycle made
    that one attempt only; the diagnostics are those of decoding, none of
    them an error, followed by one general error whose detail ends with the
    error's message; no client is built and both data slots stay empty. *)
Theorem construction_failure_reported_once
    ctx env heap req url uid tok err :
  let st := configure_cycle NewClient_outcome ctx env heap req in
  CallNewClient url uid tok (Err err) ∈ calls st →
  Diagnostics (resp st)
  = Append [] (fst (Config_Get (Config req))) ++ [construction_error err]
  ∧ List.filter is_error (Diagnostics (resp st)) = [construction_error err]
  ∧ Path (construction_error err) = None
  ∧ Detail (construction_error err) = construction_error_prefix +:+ err
  ∧ List.filter is_NewClient (calls st)
    = [CallNewClient url uid tok (Err err)]
  ∧ clients st = heap
  ∧ DataSourceData (resp st) = None
  ∧ ResourceData (resp st) = None.
Proof.
  intros st Hcall. subst st.
  destruct (cycle_calls ctx env heap req)
    as [[Hc _]|[(err' & _ & Hc & Hd & He & Hh & Hds & Hrd)
               |(c & _ & Hc & _)]];
    rewrite Hc in Hcall.
  - by apply elem_of_nil in Hcall.
  - assert (CallNewClient url uid tok (Err err)
            = CallNewClient
                (resolved_value env (decoded req) FieldClientServerUrl)
                (resolved_value env (decoded req) FieldDefaultUserID)
                (resolved_value env (decoded req) FieldDefaultAccessToken)
                (Err err')) as Heq.
    { unfold logging_calls in Hcall.
      rewrite elem_of_app, !elem_of_cons, elem_of_nil in Hcall.
      intuition (discriminate || assumption). }
    injection Heq as -> -> -> ->.
    rewrite Hc, Hd. repeat split; try done.
    by rewrite List.filter_app, (filter_is_error_nil _ He).
  - exfalso. unfold logging_calls in Hcall.
    rewrite elem_of_app, !elem_of_cons, !elem_of_nil in Hcall.
    intuition discriminate.
Qed.

(** C6.  A cycle that ends without an error among its diagnostics made one
    call to the client library, with the resolved endpoint, user ID and
    access token; the one client it built is in the heap at the address
    that both the data-source slot and the resource slot hold. *)
Theorem success_shares_one_client ctx env heap req :
  let st := configure_cycle NewClient_outcome ctx env heap req in
  let v := resolved_value env (decoded req) in
  HasError (Diagnostics (resp st)) = false →
  ∃ p c,
    DataSourceData (resp st) = Some p
    ∧ ResourceData (resp st) = Some p
    ∧ clients st = heap ++ [c]
    ∧ clients st !! p = Some c
    ∧ NewClient_outcome (v FieldClientServerUrl) (v FieldDefaultUserID)
                        (v FieldDefaultAccessToken) = Ok c
    ∧ List.filter is_NewClient (calls st)
      = [CallNewClient (v FieldClientServerUrl) (v FieldDefaultUserID)
                       (v FieldDefaultAccessToken) (Ok p)].
Proof.
  intros st v Hok. subst st v.
  destruct (cycle_calls ctx env heap req)
    as [[_ He]|[(err & _ & _ & Hd & _)
               |(c & Hnew & Hc & _ & Hh & Hds & Hrd)]].
  - congruence.
  - rewrite Hd, HasError_app in Hok.
    apply orb_false_elim in Hok as [_ Hok]. discriminate.
  - exists (length heap), c. rewrite Hc, Hh. repeat split; try done.
    by rewrite lookup_app_r, Nat.sub_diag.
Qed.

(** C7.  For each field, a cycle run with the field's environment variable
    unset and a cycle run with it set to the empty string resolve the
    fields to the same values and end with the same response, the same
    calls and the same clients. *)
Theorem unset_variable_same_as_empty ctx env heap req f :
  let unset := delete (environment_variable f) env in
  let empty := <[environment_variable f := ""]> env in
  let st1 := configure_cycle NewClient_outcome ctx unset heap req in
  let st2 := configure_cycle NewClient_outcome ctx empty heap req in
  fst (resolve_fields (decoded req) (initial_State unset heap))
  = fst (resolve_fields (decoded req) (initial_State empty heap))
  ∧ resp st1 = resp st2
  ∧ calls st1 = calls st2
  ∧ clients st1 = clients st2.
Proof.
  intros unset empty st1 st2.
  assert (∀ k, Getenv unset k = Getenv empty k) as Henv.
  { intros k. apply Getenv_unset_or_empty. }
  split.
  { unfold resolve_fields, os_Getenv, mbind, M_bind, mret, M_ret. simpl.
    by rewrite !Henv. }
  subst st1 st2. rewrite !configure_cycle_outcome.
  unfold Configure_outcome. simpl environ.
  rewrite (any_empty_ext unset empty _ Henv).
  rewrite (missing_errors_ext unset empty _ Henv).
  rewrite !(resolved_value_ext unset empty _ _ Henv).
  destruct (HasError _); [done|].
  destruct (any_unknown _); [done|].
  destruct (any_empty _ _); [done|].
  by destruct (NewClient_outcome _ _ _).
Qed.

(** C8.  Scenario C: all three structured fields null and only
    [MATRIX_CLIENT_SERVER_URL] set.  The cycle fails with exactly two
    diagnostics, the missing-value diagnostics of the access token and of
    the user ID; none is scoped to the endpoint, which is resolved from the
    environment. *)
Theorem scenario_null_configuration_with_endpoint_variable ctx heap :
  let env : gmap string string :=
    {[ "MATRIX_CLIENT_SERVER_URL" := "https://x" ]} in
  let config :=
    {| ClientServerUrl := StringNull;
       DefaultAccessToken := StringNull;
       DefaultUserID := StringNull |} in
  let st := configure_cycle NewClient_outcome ctx env heap
              {| Config := Decodable config |} in
  Diagnostics (resp st)
  = [missing_error FieldDefaultAccessToken; missing_error FieldDefaultUserID]
  ∧ length (Diagnostics (resp st)) = 2
  ∧ HasError (Diagnostics (resp st)) = true
  ∧ Forall (λ d, Path d ≠ Some (path_Root "client_server_url"))
           (Diagnostics (resp st))
  ∧ fst (resolve_fields config (initial_State env heap))
    = Next ("https://x", "", "")
  ∧ calls st = []
  ∧ DataSourceData (resp st) = None
  ∧ ResourceData (resp st) = None.
Proof.
  intros env config.
  assert (any_unknown config = false) as Hknown by reflexivity.
  assert (any_empty env config = true) as Hempty by reflexivity.
  simpl. rewrite (cycle_missing _ _ _ _ _ Hknown Hempty).
  repeat split.
  repeat constructor; discriminate.
Qed.

(** C9.  In a cycle that ends without an error among its diagnostics, the
    access token's key is masked by a call that comes before every
    emission and before the construction of the client.  Every emission of
    the cycle is made on the context built at lines 156-159 and renders the
    access token as asterisks, and the endpoint and the user ID, unless the
    incoming context masks their keys, as their resolved values.  Every
    context derived from that context still masks the key and renders the
    access token as asterisks. *)
Theorem credential_masked_before_emission ctx env heap req :
  let st := configure_cycle NewClient_outcome ctx env heap req in
  let v := resolved_value env (decoded req) in
  let url := v FieldClientServerUrl in
  let tok := v FieldDefaultAccessToken in
  let uid := v FieldDefaultUserID in
  let logging := logging_context ctx url tok uid in
  HasError (Diagnostics (resp st)) = false →
  (∃ before after,
     calls st
     = before ++
       CallMaskFieldValuesWithFieldKeys ["default_access_token"] :: after
     ∧ Forall (λ c, is_Log c = false ∧ is_NewClient c = false) before
     ∧ Exists (λ c, is_Log c = true) after
     ∧ Exists (λ c, is_NewClient c = true) after)
  ∧ (∀ level msg fields,
       CallLog level msg fields ∈ calls st →
       (∃ additionalFields,
          fields = emitted_fields logging additionalFields)
       ∧ fields !! "default_access_token" = Some masked_value
       ∧ ("client_server_url" ∉ LoggerMaskFieldValuesWithFieldKeys ctx →
          fields !! "client_server_url" = Some (VString url))
       ∧ ("default_user_id" ∉ LoggerMaskFieldValuesWithFieldKeys ctx →
          fields !! "default_user_id" = Some (VString uid)))
  ∧ LoggerMaskFieldValuesWithFieldKeys logging
    = LoggerMaskFieldValuesWithFieldKeys ctx ++ ["default_access_token"]
  ∧ (∀ ctx' additionalFields,
       derived_from logging ctx' →
       "default_access_token" ∈ LoggerMaskFieldValuesWithFieldKeys ctx'
       ∧ emitted_fields ctx' additionalFields !! "default_access_token"
         = Some masked_value).
Proof.
  intros st v url tok uid logging Hok.
  assert ("default_access_token"
          ∈ LoggerMaskFieldValuesWithFieldKeys logging) as Hmasked.
  { simpl. apply elem_of_app. right. by apply list_elem_of_singleton. }
  assert (is_Some (LoggerFields logging !! "default_access_token"))
    as Hfield.
  { simpl. rewrite lookup_insert_ne by done. rewrite lookup_insert_eq.
    eauto. }
  assert (∀ key value,
            key ≠ "default_access_token" →
            key ∉ LoggerMaskFieldValuesWithFieldKeys ctx →
            LoggerFields logging !! key = Some value →
            ∀ additionalFields,
              additionalFields !! key = None →
              emitted_fields logging additionalFields !! key = Some value)
    as Hplain.
  { intros key value Hkey Hctx Hlook extra Hextra.
    rewrite lookup_emitted_fields, lookup_union_r, Hlook by done.
    simpl. rewrite bool_decide_eq_false_2; [done|].
    rewrite elem_of_app, list_elem_of_singleton. tauto. }
  assert (LoggerFields logging !! "client_server_url" = Some (VString url))
    as Hurl.
  { simpl. rewrite !lookup_insert_ne by done. by rewrite lookup_insert_eq. }
  assert (LoggerFields logging !! "default_user_id" = Some (VString uid))
    as Huid.
  { simpl. by rewrite lookup_insert_eq. }
  subst st.
  destruct (cycle_calls ctx env heap req)
    as [[_ He]|[(err & _ & _ & Hd & _)|(c & _ & Hc & _)]].
  { congruence. }
  { rewrite Hd, HasError_app in Hok.
    apply orb_false_elim in Hok as [_ Hok]. discriminate. }
  fold v url tok uid logging in Hc. rewrite Hc.
  split; [|split; [|split; [done|]]].
  - exists [CallSetField "client_server_url" (VString url);
            CallSetField "default_access_token" (VString tok);
            CallSetField "default_user_id" (VString uid)].
    eexists. split; [reflexivity|].
    split; [by repeat constructor|].
    split; [by apply Exists_cons_hd|].
    by apply Exists_cons_tl, Exists_cons_hd.
  - intros level msg fields Hin. unfold logging_calls in Hin.
    fold logging in Hin.
    rewrite elem_of_app, !elem_of_cons, !elem_of_nil in Hin.
    assert (∃ extra, fields = emitted_fields logging extra
                     ∧ extra !! "client_server_url" = None
                     ∧ extra !! "default_user_id" = None)
      as (extra & -> & Hx1 & Hx2).
    { destruct Hin as [Hin|Hin].
      - exists ∅. intuition (try discriminate). congruence.
      - exists {[ "success" := VBool true ]}.
        intuition (try discriminate). congruence. }
    split; [eauto|]. split.
    + apply (derived_from_emits_masked logging); [constructor|done..].
    + split; intros Hctx; by apply Hplain.
  - intros ctx' extra Hder. split.
    + by eapply derived_from_masked.
    + by apply (derived_from_emits_masked logging).
Qed.

(** C10, for configurations without unknown fields.  Provided no
    structured field is unknown, a field whose structured value is the
    concrete empty string resolves to the empty string whatever its
    environment variable holds, and the cycle fails with the missing-value
    diagnostic of that field, without any call to the client library. *)
Theorem empty_structured_value_is_not_defaulted ctx env heap config f :
  (∀ g, IsUnknown (field_value config g) = false) →
  field_value config f = StringValue "" →
  let st := configure_cycle NewClient_outcome ctx env heap
              {| Config := Decodable config |} in
  (∃ vals,
     resolve_fields config (initial_State env heap)
     = (Next vals, initial_State env heap)
     ∧ field_of vals f = "")
  ∧ missing_error f ∈ Diagnostics (resp st)
  ∧ HasError (Diagnostics (resp st)) = true
  ∧ Path (missing_error f) = Some (path_Root (attribute_name f))
  ∧ calls st = []
  ∧ DataSourceData (resp st) = None
  ∧ ResourceData (resp st) = None.
Proof.
  intros Hknown Hf.
  assert (resolved_value env config f = "") as Hres.
  { unfold resolved_value. by rewrite Hf. }
  assert (any_unknown config = false) as Hnone.
  { apply not_true_is_false. intros [g Hg]%any_unknown_true.
    rewrite Hknown in Hg. discriminate. }
  assert (any_empty env config = true) as Hempty.
  { apply any_empty_true. eauto. }
  simpl. rewrite (cycle_missing _ _ _ _ _ Hnone Hempty). simpl.
  rewrite ?app_nil_r.
  assert (missing_error f ∈ missing_errors env config) as Hin.
  { by apply elem_of_missing_errors. }
  split.
  { eexists. split; [apply resolve_fields_resolved_value|].
    by destruct f. }
  repeat split; try done.
  apply existsb_exists. exists (missing_error f).
  split; [by apply list_elem_of_In|done].
Qed.

End properties.

(** ** Concrete cycles *)

Lemma unknown_fields_reported_before_construction_witness :
  let st := example_cycle ∅
              {| ClientServerUrl := StringUnknown;
                 DefaultAccessToken := StringValue "abc";
                 DefaultUserID := StringUnknown |} in
  Diagnostics (resp st)
  = [unknown_error FieldClientServerUrl; unknown_error FieldDefaultUserID]
  ∧ calls st = [].
Proof.
  pose proof
    (unknown_fields_reported_before_construction example_NewClient
       context_Background ∅ []
       {| ClientServerUrl := StringUnknown;
          DefaultAccessToken := StringValue "abc";
          DefaultUserID := StringUnknown |}
       (ex_intro _ FieldClientServerUrl eq_refl)) as (Hd & _ & _ & _ & Hc & _).
  split; [exact Hd | exact Hc].
Defined.

Lemma emptiness_pass_gated_and_cumulative_witness :
  (∀ f, missing_error f ∉
        Diagnostics (resp (example_cycle ∅
          {| ClientServerUrl := StringUnknown;
             DefaultAccessToken := StringNull;
             DefaultUserID := StringNull |})))
  ∧ Diagnostics (resp (example_cycle ∅
      {| ClientServerUrl := StringValue "https://matrix.org";
         DefaultAccessToken := StringNull;
         DefaultUserID := StringValue "" |}))
    = [missing_error FieldDefaultAccessToken;
       missing_error FieldDefaultUserID].
Proof.
  split.
  - exact (proj1 (emptiness_pass_gated_and_cumulative example_NewClient
                    context_Background ∅ []
                    {| ClientServerUrl := StringUnknown;
                       DefaultAccessToken := StringNull;
                       DefaultUserID := StringNull |}) eq_refl).
  - exact (proj1 (proj2 (proj1 (proj2
             (emptiness_pass_gated_and_cumulative example_NewClient
                context_Background ∅ []
                {| ClientServerUrl := StringValue "https://matrix.org";
                   DefaultAccessToken := StringNull;
                   DefaultUserID := StringValue "" |})) eq_refl)
             (ex_intro _ FieldDefaultUserID eq_refl))).
Defined.

Lemma empty_structured_value_is_not_defaulted_witness :
  let st := example_cycle {[ "MATRIX_CLIENT_SERVER_URL" := "https://x" ]}
              {| ClientServerUrl := StringValue "";
                 DefaultAccessToken := StringValue "abc";
                 DefaultUserID := StringValue "@a:matrix.org" |} in
  missing_error FieldClientServerUrl ∈ Diagnostics (resp st)
  ∧ calls st = [].
Proof.
  pose proof
    (empty_structured_value_is_not_defaulted example_NewClient
       context_Background {[ "MATRIX_CLIENT_SERVER_URL" := "https://x" ]} []
       {| ClientServerUrl := StringValue "";
          DefaultAccessToken := StringValue "abc";
          DefaultUserID := StringValue "@a:matrix.org" |}
       FieldClientServerUrl) as H.
  destruct H as (_ & Hin & _ & _ & Hcalls & _).
  - intros g. destruct g; reflexivity.
  - reflexivity.
  - split; [exact Hin | exact Hcalls].
Defined.

(** C10 does not hold next to an unknown field: with the endpoint set to
    the empty string, its environment variable set, and the access token
    unknown, the cycle stops after the unknown-value pass and reports no
    missing-value diagnostic for the endpoint. *)
Lemma empty_structured_value_with_unknown_sibling :
  let config :=
    {| ClientServerUrl := StringValue "";
       DefaultAccessToken := StringUnknown;
       DefaultUserID := StringValue "@a:matrix.org" |} in
  let st := example_cycle {[ "MATRIX_CLIENT_SERVER_URL" := "https://x" ]}
              config in
  field_value config FieldClientServerUrl = StringValue ""
  ∧ Diagnostics (resp st) = [unknown_error FieldDefaultAccessToken]
  ∧ missing_error FieldClientServerUrl ∉ Diagnostics (resp st).
Proof.
  assert (Diagnostics (resp (example_cycle
            {[ "MATRIX_CLIENT_SERVER_URL" := "https://x" ]}
            {| ClientServerUrl := StringValue "";
               DefaultAccessToken := StringUnknown;
               DefaultUserID := StringValue "@a:matrix.org" |}))
          = [unknown_error FieldDefaultAccessToken]) as Hd.
  { vm_compute. reflexivity. }
  intros config st. split; [reflexivity|]. split; [exact Hd|].
  unfold st, config. rewrite Hd.
  intros Hin%list_elem_of_singleton. discriminate.
Qed.

Lemma structured_value_wins_over_environment_witness :
  let env : gmap string string :=
    {[ "MATRIX_CLIENT_SERVER_URL" := "https://env.example" ]} in
  let config :=
    {| ClientServerUrl := StringValue "https://matrix.org";
       DefaultAccessToken := StringNull;
       DefaultUserID := StringValue "@a:matrix.org" |} in
  let st := initial_State (Client := example_Client) env [] in
  (∃ vals, resolve_fields config st = (Next vals, st)
           ∧ field_of vals FieldClientServerUrl = "https://matrix.org")
  ∧ (∃ vals, resolve_fields config st = (Next vals, st)
             ∧ field_of vals FieldDefaultAccessToken = "").
Proof.
  intros env config st. split.
  - exact (structured_value_wins_over_environment st config
             FieldClientServerUrl eq_refl).
  - exact (structured_value_wins_over_environment st config
             FieldDefaultAccessToken eq_refl).
Defined.

Lemma construction_failure_reported_once_witness :
  let st := example_cycle ∅
              {| ClientServerUrl := StringValue "::";
                 DefaultAccessToken := StringValue "abc";
                 DefaultUserID := StringValue "@a:matrix.org" |} in
  Diagnostics (resp st)
  = [construction_error "parse ::: missing protocol scheme"]
  ∧ DataSourceData (resp st) = None
  ∧ ResourceData (resp st) = None.
Proof.
  pose proof
    (construction_failure_reported_once example_NewClient
       context_Background ∅ []
       {| Config := Decodable
            {| ClientServerUrl := StringValue "::";
               DefaultAccessToken := StringValue "abc";
               DefaultUserID := StringValue "@a:matrix.org" |} |}
       "::" "@a:matrix.org" "abc" "parse ::: missing protocol scheme")
    as H.
  destruct H as (Hd & _ & _ & _ & _ & _ & Hds & Hrd).
  - apply list_elem_of_In. vm_compute. do 5 right. left. reflexivity.
  - split; [exact Hd | split; [exact Hds | exact Hrd]].
Defined.

Lemma success_shares_one_client_witness :
  let st := example_cycle ∅
              {| ClientServerUrl := StringValue "https://matrix.org";
                 DefaultAccessToken := StringValue "abc";
                 DefaultUserID := StringValue "@a:matrix.org" |} in
  ∃ p,
    DataSourceData (resp st) = Some p
    ∧ ResourceData (resp st) = Some p
    ∧ clients st !! p
      = Some {| HomeserverURL := "https://matrix.org";
                UserID := "@a:matrix.org";
                AccessToken := "abc" |}.
Proof.
  pose proof
    (success_shares_one_client example_NewClient context_Background ∅ []
       {| Config := Decodable
            {| ClientServerUrl := StringValue "https://matrix.org";
               DefaultAccessToken := StringValue "abc";
               DefaultUserID := StringValue "@a:matrix.org" |} |})
    as H.
  destruct H as (p & c & Hds & Hrd & _ & Hp & Hnew & _).
  - vm_compute. reflexivity.
  - exists p. split; [exact Hds | split; [exact Hrd|]].
    vm_compute in Hnew. injection Hnew as <-. exact Hp.
Defined.

Lemma credential_masked_before_emission_witness :
  let st := example_cycle ∅
              {| ClientServerUrl := StringValue "https://matrix.org";
                 DefaultAccessToken := StringValue "abc";
                 DefaultUserID := StringValue "@a:matrix.org" |} in
  Forall
    (λ c,
       match c with
       | CallLog _ _ fields =>
           fields !! "default_access_token" = Some (VString "***")
           ∧ fields !! "client_server_url"
             = Some (VString "https://matrix.org")
           ∧ fields !! "default_user_id" = Some (VString "@a:matrix.org")
       | _ => True
       end)
    (calls st).
Proof.
  pose proof
    (credential_masked_before_emission example_NewClient
       context_Background ∅ []
       {| Config := Decodable
            {| ClientServerUrl := StringValue "https://matrix.org";
               DefaultAccessToken := StringValue "abc";
               DefaultUserID := StringValue "@a:matrix.org" |} |})
    as H.
  destruct H as (_ & Hlog & _).
  - vm_compute. reflexivity.
  - intros st. apply Forall_forall.
    intros [| |level msg fields|] Hin; try exact I.
    destruct (Hlog level msg fields Hin) as (_ & Htok & Hurl & Huid).
    split; [exact Htok|]. split.
    + apply Hurl. simpl. apply not_elem_of_nil.
    + apply Huid. simpl. apply not_elem_of_nil.
Defined.

(** * Further properties *)

(** ** More on the diagnostics collection *)

Lemma Append_cons (diags ins : list Diagnostic) (d : Diagnostic) :
  Append diags (d :: ins)
  = Append (if Contains diags d then diags else diags ++ [d]) ins.
Proof. reflexivity. Qed.

Lemma Append_prefix (diags ins : list Diagnostic) :
  diags `prefix_of` Append diags ins.
Proof.
  revert diags. induction ins as [|d ins IH]; intros diags.
  - done.
  - rewrite Append_cons. destruct (Contains diags d); [apply IH|].
    etrans; [|apply IH]. by apply prefix_app_r.
Qed.

Lemma HasError_Append (diags ins : list Diagnostic) :
  HasError (Append diags ins) = HasError diags || HasError ins.
Proof.
  revert diags. induction ins as [|d ins IH]; intros diags.
  - simpl. by rewrite orb_false_r.
  - rewrite Append_cons, IH. simpl.
    destruct (Contains diags d) eqn:Hin.
    + destruct (is_error d) eqn:Hd; [|done].
      apply bool_decide_eq_true in Hin.
      assert (HasError diags = true) as ->; [|done].
      apply existsb_exists. exists d. by rewrite <- list_elem_of_In.
    + rewrite HasError_app. simpl. by rewrite orb_false_r, orb_assoc.
Qed.

Section from_any_state.

Context {Client : Type}.
Variable NewClient_outcome : string → string → string → go_result Client.

(** X1.  [Configure] on a response that already carries an error, or with
    a configuration whose decoding reports one, only merges the decoding
    diagnostics into the response: it reads no field, logs nothing, builds
    no client and leaves both data slots as they were, whatever the
    configuration and the environment hold. *)
Theorem error_in_response_stops_Configure ctx req st :
  HasError (Diagnostics (resp st)) = true
  ∨ HasError (fst (Config_Get (Config req))) = true →
  Configure NewClient_outcome ctx req st
  = (Returned,
     {| resp :=
          {| Diagnostics :=
               Append (Diagnostics (resp st)) (fst (Config_Get (Config req)));
             DataSourceData := DataSourceData (resp st);
             ResourceData := ResourceData (resp st) |};
        environ := environ st;
        clients := clients st;
        calls := calls st |}).
Proof.
  intros Herr. rewrite Configure_eq_outcome. unfold Configure_outcome.
  assert (HasError (Append (Diagnostics (resp st))
                           (fst (Config_Get (Config req)))) = true) as ->.
  { rewrite HasError_Append. destruct Herr as [-> | ->]; [done|].
    apply orb_true_r. }
  unfold end_State. simpl. by rewrite !app_nil_r.
Qed.

(** X2.  From every state [Configure] only adds: the diagnostics, the
    clients and the calls it finds are kept, in order, at the front of
    those it leaves; it builds at most one client and leaves the
    environment as it is. *)
Theorem Configure_only_appends ctx req st :
  let st' := run_Configure NewClient_outcome ctx req st in
  Diagnostics (resp st) `prefix_of` Diagnostics (resp st')
  ∧ clients st `prefix_of` clients st'
  ∧ length (clients st') ≤ S (length (clients st))
  ∧ calls st `prefix_of` calls st'
  ∧ environ st' = environ st.
Proof.
  unfold run_Configure. rewrite Configure_eq_outcome.
  unfold Configure_outcome.
  pose proof (Append_prefix (Diagnostics (resp st))
                            (fst (Config_Get (Config req)))) as Hpre.
  assert (∀ added, Diagnostics (resp st)
                   `prefix_of` Append (Diagnostics (resp st))
                                 (fst (Config_Get (Config req))) ++ added)
    as Hpre'.
  { intros added. etrans; [exact Hpre|]. by apply prefix_app_r. }
  destruct (HasError _); [|destruct (any_unknown _);
    [|destruct (any_empty _ _); [|destruct (NewClient_outcome _ _ _)]]];
    simpl; rewrite ?app_nil_r, ?length_app; simpl;
    repeat split; try done; try apply prefix_app_r; try done; lia.
Qed.

(** X3.  From every state, [Configure] returns early exactly when the
    response ends up with an error, and then both data slots and the
    clients are as it found them, a handle of an earlier cycle included;
    when it runs to its end there is no error and both slots are
    overwritten with the address of the one client it built. *)
Theorem Configure_flow_and_slots ctx req st :
  match Configure NewClient_outcome ctx req st with
  | (Returned, st') =>
      HasError (Diagnostics (resp st')) = true
      ∧ DataSourceData (resp st') = DataSourceData (resp st)
      ∧ ResourceData (resp st') = ResourceData (resp st)
      ∧ clients st' = clients st
  | (Next _, st') =>
      HasError (Diagnostics (resp st')) = false
      ∧ DataSourceData (resp st') = Some (length (clients st))
      ∧ ResourceData (resp st') = Some (length (clients st))
      ∧ ∃ c, clients st' = clients st ++ [c]
             ∧ clients st' !! length (clients st) = Some c
  end.
Proof.
  rewrite Configure_eq_outcome. unfold Configure_outcome.
  destruct (HasError (Append _ _)) eqn:He.
  { simpl. by rewrite app_nil_r. }
  destruct (any_unknown _) eqn:Hunknown.
  { simpl. rewrite app_nil_r. repeat split.
    apply HasError_app_errors. by apply HasError_unknown_errors. }
  destruct (any_empty _ _) eqn:Hempty.
  { simpl. rewrite app_nil_r. repeat split.
    apply HasError_app_errors. by apply HasError_missing_errors. }
  destruct (NewClient_outcome _ _ _) as [c|err].
  - simpl. repeat split; [done|]. exists c. split; [done|].
    by rewrite lookup_app_r, Nat.sub_diag.
  - simpl. rewrite app_nil_r. repeat split.
    by apply HasError_app_errors.
Qed.

End from_any_state.

Lemma any_unknown_false config :
  any_unknown config = false ↔ ∀ f, IsUnknown (field_value config f) = false.
Proof.
  split.
  - intros Hnone f. apply not_true_is_false. intros Hf.
    assert (any_unknown config = true); [|congruence].
    apply any_unknown_true. eauto.
  - intros Hall. apply not_true_is_false. intros [f Hf]%any_unknown_true.
    rewrite Hall in Hf. discriminate.
Qed.

Lemma any_empty_false env config :
  any_empty env config = false ↔ ∀ f, resolved_value env config f ≠ "".
Proof.
  split.
  - intros Hnone f Hf.
    assert (any_empty env config = true); [|congruence].
    apply any_empty_true. eauto.
  - intros Hall. apply not_true_is_false. intros [f Hf]%any_empty_true.
    by apply (Hall f).
Qed.

(** The cycle looks at the environment through the three variables of the
    fields only. *)
Lemma resolved_value_agree env1 env2 config f :
  (∀ g, Getenv env1 (environment_variable g)
        = Getenv env2 (environment_variable g)) →
  resolved_value env1 config f = resolved_value env2 config f.
Proof. intros Henv. unfold resolved_value. by rewrite Henv. Qed.

Section more_properties.

Context {Client : Type}.
Variable NewClient_outcome : string → string → string → go_result Client.

Lemma cycle_agree ctx env1 env2 heap req :
  (∀ f, resolved_value env1 (decoded req) f
        = resolved_value env2 (decoded req) f) →
  let st1 := configure_cycle NewClient_outcome ctx env1 heap req in
  let st2 := configure_cycle NewClient_outcome ctx env2 heap req in
  resp st1 = resp st2 ∧ calls st1 = calls st2 ∧ clients st1 = clients st2.
Proof.
  intros Hres. simpl. rewrite !configure_cycle_outcome.
  unfold Configure_outcome. fold (decoded req). simpl environ.
  assert (any_empty env1 (decoded req) = any_empty env2 (decoded req))
    as ->.
  { unfold any_empty. simpl. by rewrite !Hres. }
  assert (missing_errors env1 (decoded req)
          = missing_errors env2 (decoded req)) as ->.
  { unfold missing_errors. simpl. by rewrite !Hres. }
  rewrite !Hres.
  destruct (HasError _); [done|].
  destruct (any_unknown _); [done|].
  destruct (any_empty _ _); [done|].
  by destruct (NewClient_outcome _ _ _).
Qed.

(** X4.  A cycle ends without an error among its diagnostics exactly when
    decoding reported no error, no field is unknown, no field resolves to
    the empty string and the client library builds a client from the
    resolved endpoint, user ID and access token. *)
Theorem cycle_succeeds_iff ctx env heap req :
  let st := configure_cycle NewClient_outcome ctx env heap req in
  let v := resolved_value env (decoded req) in
  HasError (Diagnostics (resp st)) = false
  ↔ HasError (fst (Config_Get (Config req))) = false
    ∧ (∀ f, IsUnknown (field_value (decoded req) f) = false)
    ∧ (∀ f, v f ≠ "")
    ∧ ∃ c, NewClient_outcome (v FieldClientServerUrl)
             (v FieldDefaultUserID) (v FieldDefaultAccessToken) = Ok c.
Proof.
  simpl. rewrite configure_cycle_outcome. unfold Configure_outcome.
  fold (decoded req). simpl environ. simpl (Diagnostics _).
  rewrite <- any_unknown_false, <- any_empty_false.
  pose proof (HasError_Append [] (fst (Config_Get (Config req)))) as Hdec.
  simpl in Hdec.
  destruct (HasError (Append _ _)) eqn:He.
  { simpl. rewrite ?app_nil_r, He, <- Hdec. intuition discriminate. }
  rewrite <- Hdec.
  destruct (any_unknown _) eqn:Hunknown.
  { simpl. rewrite ?app_nil_r, HasError_app_errors
      by by apply HasError_unknown_errors.
    intuition discriminate. }
  destruct (any_empty _ _) eqn:Hempty.
  { simpl. rewrite ?app_nil_r, HasError_app_errors
      by by apply HasError_missing_errors.
    intuition discriminate. }
  destruct (NewClient_outcome _ _ _) as [c|err].
  - simpl. rewrite He. intuition eauto.
  - simpl. rewrite ?app_nil_r, HasError_app_errors by done.
    split; [discriminate|]. intros (_ & _ & _ & c & Hc). discriminate.
Qed.

(** X5.  Two cycles run one after the other on the same input, each with
    its own zero response: if the first ends without an error, so does the
    second, with the same diagnostics; the two handles are different
    addresses, and the heap holds at both the same client value, the first
    client untouched by the second cycle. *)
Theorem successive_cycles_build_independent_clients ctx env heap req :
  let st1 := configure_cycle NewClient_outcome ctx env heap req in
  let st2 := configure_cycle NewClient_outcome ctx env (clients st1) req in
  HasError (Diagnostics (resp st1)) = false →
  Diagnostics (resp st2) = Diagnostics (resp st1)
  ∧ ∃ p1 p2 c,
      p1 ≠ p2
      ∧ DataSourceData (resp st1) = Some p1
      ∧ ResourceData (resp st1) = Some p1
      ∧ DataSourceData (resp st2) = Some p2
      ∧ ResourceData (resp st2) = Some p2
      ∧ clients st1 !! p1 = Some c
      ∧ clients st2 !! p1 = Some c
      ∧ clients st2 !! p2 = Some c.
Proof.
  intros st1 st2 Hok. subst st1 st2.
  rewrite !configure_cycle_outcome in *. unfold Configure_outcome in *.
  simpl environ in *. simpl (Diagnostics _) in *.
  set (diags := Append [] (fst (Config_Get (Config req)))) in *.
  destruct (HasError diags) eqn:He.
  { simpl in Hok. rewrite ?app_nil_r in Hok. congruence. }
  destruct (any_unknown _) eqn:Hunknown.
  { simpl in Hok. rewrite ?app_nil_r, HasError_app_errors in Hok
      by by apply HasError_unknown_errors. discriminate. }
  destruct (any_empty _ _) eqn:Hempty.
  { simpl in Hok. rewrite ?app_nil_r, HasError_app_errors in Hok
      by by apply HasError_missing_errors. discriminate. }
  destruct (NewClient_outcome _ _ _) as [c|err].
  - simpl. split; [done|].
    exists (length heap), (length (heap ++ [c])), c.
    rewrite length_app. simpl. repeat split; try done.
    + lia.
    + by rewrite lookup_app_r, Nat.sub_diag.
    + rewrite <- app_assoc. by rewrite lookup_app_r, Nat.sub_diag.
    + rewrite lookup_app_r; rewrite length_app; simpl; [|lia].
      by rewrite Nat.sub_diag.
  - simpl in Hok. rewrite ?app_nil_r, HasError_app_errors in Hok by done.
    discriminate.
Qed.

(** X6.  The cycle reads the environment through the three variables of
    the fields only: two environments that agree on them, whatever else
    they hold, give the same response, calls and clients. *)
Theorem cycle_reads_three_variables_only ctx env1 env2 heap req :
  (∀ f, Getenv env1 (environment_variable f)
        = Getenv env2 (environment_variable f)) →
  let st1 := configure_cycle NewClient_outcome ctx env1 heap req in
  let st2 := configure_cycle NewClient_outcome ctx env2 heap req in
  resp st1 = resp st2 ∧ calls st1 = calls st2 ∧ clients st1 = clients st2.
Proof.
  intros Henv. apply cycle_agree. intros f.
  by apply resolved_value_agree.
Qed.

(** X7.  When all three structured values are concrete, the environment
    plays no part: every two environments give the same response, calls
    and clients. *)
Theorem concrete_configuration_ignores_environment
    ctx env1 env2 heap config :
  (∀ f, ∃ s, field_value config f = StringValue s) →
  let req := {| Config := Decodable config |} in
  let st1 := configure_cycle NewClient_outcome ctx env1 heap req in
  let st2 := configure_cycle NewClient_outcome ctx env2 heap req in
  resp st1 = resp st2 ∧ calls st1 = calls st2 ∧ clients st1 = clients st2.
Proof.
  intros Hconcrete. apply cycle_agree. intros f.
  unfold resolved_value, decoded. cbn [Config Config_Get snd].
  by destruct (Hconcrete f) as [s ->].
Qed.

(** X8.  An unknown structured value is not rescued by the environment:
    whatever the variables hold, the one named in the diagnostic included,
    the cycle ends with the same unknown-value diagnostics and no client. *)
Theorem unknown_value_not_rescued_by_environment
    ctx env1 env2 heap config f :
  IsUnknown (field_value config f) = true →
  let req := {| Config := Decodable config |} in
  let st1 := configure_cycle NewClient_outcome ctx env1 heap req in
  let st2 := configure_cycle NewClient_outcome ctx env2 heap req in
  resp st1 = resp st2
  ∧ unknown_error f ∈ Diagnostics (resp st2)
  ∧ occurs_in (environment_variable f) (Detail (unknown_error f)) = true
  ∧ DataSourceData (resp st2) = None
  ∧ clients st2 = heap.
Proof.
  intros Hf. assert (any_unknown config = true) as Hany.
  { apply any_unknown_true. eauto. }
  simpl. rewrite !(cycle_unknown _ _ _ _ _ Hany). simpl.
  rewrite ?app_nil_r. repeat split; try done.
  - by apply elem_of_unknown_errors.
  - by destruct f.
Qed.

End more_properties.

Lemma unknown_errors_NoDup_short config :
  NoDup (unknown_errors config) ∧ length (unknown_errors config) ≤ 3.
Proof.
  unfold unknown_errors, all_fields. cbn [List.filter].
  destruct (IsUnknown _), (IsUnknown _), (IsUnknown _); cbn [fmap list_fmap];
    (split; [apply (bool_decide_unpack _); vm_compute; exact I
            | simpl; lia]).
Qed.

Lemma missing_errors_NoDup_short env config :
  NoDup (missing_errors env config) ∧ length (missing_errors env config) ≤ 3.
Proof.
  unfold missing_errors, all_fields. cbn [List.filter].
  destruct (String.eqb _ _), (String.eqb _ _), (String.eqb _ _);
    cbn [fmap list_fmap];
    (split; [apply (bool_decide_unpack _); vm_compute; exact I
            | simpl; lia]).
Qed.

Lemma elem_of_unknown_errors_inv config d :
  d ∈ unknown_errors config →
  ∃ f, d = unknown_error f ∧ IsUnknown (field_value config f) = true.
Proof.
  unfold unknown_errors. intros (f & -> & Hf)%list_elem_of_fmap.
  exists f. split; [done|].
  by apply list_elem_of_In, filter_In in Hf as [_ Hf].
Qed.

Lemma elem_of_missing_errors_inv env config d :
  d ∈ missing_errors env config →
  ∃ f, d = missing_error f ∧ resolved_value env config f = "".
Proof.
  unfold missing_errors. intros (f & -> & Hf)%list_elem_of_fmap.
  exists f. split; [done|].
  apply list_elem_of_In, filter_In in Hf as [_ Hf]. by apply String.eqb_eq.
Qed.

Lemma attribute_name_inj f g : attribute_name f = attribute_name g → f = g.
Proof. by destruct f, g. Qed.

(** The attributes [Schema] declares: those of the three fields, all
    required, the access token alone sensitive. *)
Lemma Schema_lookup_Some resp a attr :
  Attributes (SchemaResponse_Schema (Schema resp)) !! a = Some attr →
  (∃ f, a = attribute_name f)
  ∧ Required attr = true
  ∧ (Sensitive attr = true ↔ a = "default_access_token").
Proof.
  unfold Schema. cbn [SchemaResponse_Schema Attributes].
  rewrite !lookup_insert_Some, lookup_singleton_Some.
  intros [[<- <-]|[? [[<- <-]|[? [<- <-]]]]]; simpl;
    (split; [|split; [done|split; done]]).
  - by exists FieldClientServerUrl.
  - by exists FieldDefaultAccessToken.
  - by exists FieldDefaultUserID.
Qed.

Lemma Schema_lookup_field resp f :
  ∃ attr,
    Attributes (SchemaResponse_Schema (Schema resp)) !! attribute_name f
    = Some attr
    ∧ Sensitive attr
      = bool_decide (attribute_name f = "default_access_token").
Proof. destruct f; eexists; (split; [reflexivity|done]). Qed.

Section messages_and_schema.

Context {Client : Type}.
Variable NewClient_outcome : string → string → string → go_result Client.

(** The diagnostics of a cycle on a decodable configuration. *)
Lemma cycle_diagnostics ctx env heap config :
  let st := configure_cycle NewClient_outcome ctx env heap
              {| Config := Decodable config |} in
  (any_unknown config = true
   ∧ Diagnostics (resp st) = unknown_errors config)
  ∨ (any_unknown config = false
     ∧ Diagnostics (resp st) = missing_errors env config)
  ∨ (any_unknown config = false
     ∧ ∃ err, Diagnostics (resp st) = [construction_error err]).
Proof.
  simpl. destruct (any_unknown config) eqn:Hunknown.
  { left. by rewrite (cycle_unknown _ _ _ _ _ Hunknown). }
  right. destruct (any_empty env config) eqn:Hempty.
  { left. by rewrite (cycle_missing _ _ _ _ _ Hunknown Hempty). }
  rewrite (cycle_constructing _ _ _ _ _ Hunknown Hempty).
  destruct (NewClient_outcome _ _ _) as [c|err]; simpl.
  - left. split; [done|]. unfold missing_errors.
    assert (List.filter
              (λ f, String.eqb (resolved_value env config f) "")
              all_fields = []) as ->; [|done].
    unfold any_empty in Hempty. simpl in *.
    repeat destruct (String.eqb _ _); simpl in *; done.
  - right. eauto.
Qed.

(** X9.  The diagnostics of a cycle are all of one kind: unknown-value and
    missing-value diagnostics are never reported together, a construction
    error is reported alone, every entry is an error, none is reported
    twice, and there are at most three. *)
Theorem diagnostics_of_one_kind ctx env heap config :
  let diags :=
    Diagnostics (resp (configure_cycle NewClient_outcome ctx env heap
                         {| Config := Decodable config |})) in
  (∀ f g, unknown_error f ∈ diags → missing_error g ∉ diags)
  ∧ (∀ err d, construction_error err ∈ diags → d ∈ diags →
              d = construction_error err)
  ∧ Forall (λ d, is_error d = true) diags
  ∧ NoDup diags
  ∧ length diags ≤ 3.
Proof.
  intros diags. subst diags.
  destruct (cycle_diagnostics ctx env heap config)
    as [[_ ->]|[[_ ->]|[_ [err' ->]]]].
  - destruct (unknown_errors_NoDup_short config) as [Hnd Hlen].
    repeat split; try done.
    + intros f g _. apply missing_error_not_unknown.
    + intros err d (f & Hf & _)%elem_of_unknown_errors_inv. by destruct f.
    + apply Forall_forall.
      by intros d (f & -> & _)%elem_of_unknown_errors_inv.
  - destruct (missing_errors_NoDup_short env config) as [Hnd Hlen].
    repeat split; try done.
    + intros f g (h & Hh & _)%elem_of_missing_errors_inv. by destruct f, h.
    + intros err d (f & Hf & _)%elem_of_missing_errors_inv. by destruct f.
    + apply Forall_forall.
      by intros d (f & -> & _)%elem_of_missing_errors_inv.
  - repeat split.
    + intros f g Hf%list_elem_of_singleton. by destruct f.
    + intros err d ->%list_elem_of_singleton Hd%list_elem_of_singleton.
      done.
    + by repeat constructor.
    + apply NoDup_singleton.
    + simpl. lia.
Qed.


(** X11.  The final emission is made exactly when the cycle ends without
    an error; the debug emission exactly when the client library is
    called; and the client library is called at most once. *)
Theorem emissions_follow_the_outcome ctx env heap req :
  let st := configure_cycle NewClient_outcome ctx env heap req in
  ((∃ msg fields, CallLog LevelInfo msg fields ∈ calls st)
   ↔ HasError (Diagnostics (resp st)) = false)
  ∧ ((∃ msg fields, CallLog LevelDebug msg fields ∈ calls st)
     ↔ ∃ url uid tok r, CallNewClient url uid tok r ∈ calls st)
  ∧ length (List.filter is_NewClient (calls st)) ≤ 1.
Proof.
  intros st. subst st.
  destruct (cycle_calls NewClient_outcome ctx env heap req)
    as [[Hc He]|[(err & _ & Hc & Hd & Hdec & _)
                |(c & _ & Hc & He & _)]];
    rewrite Hc; unfold logging_calls.
  - rewrite He. split; [split|split; [split|simpl; lia]].
    + by intros (? & ? & ?%elem_of_nil).
    + intros ?; discriminate.
    + by intros (? & ? & ?%elem_of_nil).
    + by intros (? & ? & ? & ? & ?%elem_of_nil).
  - assert (HasError (Diagnostics (resp
              (configure_cycle NewClient_outcome ctx env heap req)))
            = true) as ->.
    { rewrite Hd. by apply HasError_app_errors. }
    split; [split|split; [split|simpl; lia]].
    + intros (msg & fields & Hin).
      rewrite elem_of_app, !elem_of_cons, !elem_of_nil in Hin.
      intuition discriminate.
    + intros ?; discriminate.
    + intros _. do 4 eexists. apply elem_of_app. right. left.
    + intros _. do 2 eexists. apply elem_of_app. left.
      do 4 right. left.
  - rewrite He. split; [split|split; [split|simpl; lia]].
    + done.
    + intros _. do 2 eexists. apply elem_of_app. right. right. left.
    + intros _. do 4 eexists. apply elem_of_app. right. left.
    + intros _. do 2 eexists. apply elem_of_app. left.
      do 4 right. left.
Qed.

(** X12.  Every field-scoped diagnostic of a cycle is scoped to an
    attribute that [Schema] declares, as a required one, and that the
    model is tagged with. *)
Theorem diagnostics_scoped_to_declared_attributes
    ctx env heap config schema_resp d a :
  let st := configure_cycle NewClient_outcome ctx env heap
              {| Config := Decodable config |} in
  d ∈ Diagnostics (resp st) →
  Path d = Some (path_Root a) →
  a ∈ MatrixProviderModel_tfsdk
  ∧ ∃ attr,
      Attributes (SchemaResponse_Schema (Schema schema_resp)) !! a
      = Some attr
      ∧ Required attr = true.
Proof.
  intros st Hd Hpath. subst st.
  assert (∃ f, a = attribute_name f) as [f ->].
  { destruct (cycle_diagnostics ctx env heap config)
      as [[_ Heq]|[[_ Heq]|[_ [err' Heq]]]]; rewrite Heq in Hd.
    - apply elem_of_unknown_errors_inv in Hd as (f & -> & _).
      exists f. by injection Hpath as <-.
    - apply elem_of_missing_errors_inv in Hd as (f & -> & _).
      exists f. by injection Hpath as <-.
    - apply list_elem_of_singleton in Hd as ->. discriminate. }
  split.
  - unfold MatrixProviderModel_tfsdk.
    rewrite !elem_of_cons. destruct f; simpl; auto.
  - destruct (Schema_lookup_field schema_resp f) as (attr & Hattr & _).
    exists attr. split; [done|].
    by apply Schema_lookup_Some in Hattr as (_ & Hreq & _).
Qed.

(** X13.  The keys a cycle masks in its logging context are exactly the
    attributes that [Schema] declares sensitive. *)
Theorem masked_keys_are_the_sensitive_attributes
    ctx env heap req schema_resp keys :
  let st := configure_cycle NewClient_outcome ctx env heap req in
  CallMaskFieldValuesWithFieldKeys keys ∈ calls st →
  ∀ a,
    a ∈ keys
    ↔ ∃ attr,
        Attributes (SchemaResponse_Schema (Schema schema_resp)) !! a
        = Some attr
        ∧ Sensitive attr = true.
Proof.
  intros st Hcall a. subst st.
  assert (keys = ["default_access_token"]) as ->.
  { destruct (cycle_calls NewClient_outcome ctx env heap req)
      as [[Hc _]|[(err & _ & Hc & _)|(c & _ & Hc & _)]];
      rewrite Hc in Hcall; unfold logging_calls in Hcall;
      rewrite ?elem_of_app, ?elem_of_cons, ?elem_of_nil in Hcall;
      intuition (try discriminate; congruence). }
  rewrite list_elem_of_singleton. split.
  - intros ->.
    destruct (Schema_lookup_field schema_resp FieldDefaultAccessToken)
      as (attr & Hattr & Hsens).
    by exists attr.
  - intros (attr & Hattr & Hsens).
    by apply Schema_lookup_Some in Hattr as (_ & _ & ->%proj1).
Qed.

End messages_and_schema.

(** The version given to [New] is the version [Metadata] reports for every
    provider the factory builds, under the type name [matrix] and whatever
    the response held before. *)
Lemma Metadata_reports_the_version_given_to_New
    (v : string) (resp : provider_MetadataResponse) :
  TypeName (Metadata (New v tt) resp) = "matrix"
  ∧ Version (Metadata (New v tt) resp) = v
  ∧ Metadata (New v tt) (Metadata (New v tt) resp)
    = Metadata (New v tt) resp.
Proof. done. Qed.

Section construction.

Context {Client : Type}.
Variable NewClient_outcome : string → string → string → go_result Client.

(** X14.  The client library is only ever called on validated values:
    every call of a cycle carries the resolved endpoint, user ID and access
    token, in that order, none of them empty, and is made only when
    decoding reported no error and no field is unknown. *)
Theorem NewClient_called_on_validated_values
    ctx env heap req url uid tok r :
  let st := configure_cycle NewClient_outcome ctx env heap req in
  let v := resolved_value env (decoded req) in
  CallNewClient url uid tok r ∈ calls st →
  url = v FieldClientServerUrl
  ∧ uid = v FieldDefaultUserID
  ∧ tok = v FieldDefaultAccessToken
  ∧ url ≠ "" ∧ uid ≠ "" ∧ tok ≠ ""
  ∧ (∀ f, IsUnknown (field_value (decoded req) f) = false)
  ∧ HasError (fst (Config_Get (Config req))) = false.
Proof.
  intros st v. subst st v. rewrite configure_cycle_outcome.
  unfold Configure_outcome. fold (decoded req).
  simpl environ. simpl (Diagnostics _).
  pose proof (HasError_Append [] (fst (Config_Get (Config req)))) as Hdec.
  simpl in Hdec. rewrite <- Hdec.
  destruct (HasError (Append _ _)) eqn:He.
  { simpl. by intros ?%elem_of_nil. }
  destruct (any_unknown _) eqn:Hunknown.
  { simpl. by intros ?%elem_of_nil. }
  destruct (any_empty _ _) eqn:Hempty.
  { simpl. by intros ?%elem_of_nil. }
  pose proof (proj1 (any_unknown_false _) Hunknown) as Hknown.
  pose proof (proj1 (any_empty_false _ _) Hempty) as Hfull.
  destruct (NewClient_outcome _ _ _) as [c|err]; simpl; intros Hin;
    unfold logging_calls in Hin;
    rewrite ?elem_of_app, ?elem_of_cons, ?elem_of_nil in Hin;
    repeat match goal with
           | H : _ ∨ _ |- _ => destruct H as [H|H]
           | H : False |- _ => destruct H
           | H : CallNewClient _ _ _ _ = CallNewClient _ _ _ _ |- _ =>
               injection H as -> -> -> ->
           | H : CallNewClient _ _ _ _ = _ |- _ => discriminate H
           end;
    by repeat split.
Qed.

End construction.

(** ** More concrete cycles *)

Lemma error_in_response_stops_Configure_witness :
  let st : State (Client := example_Client) :=
    {| resp := {| Diagnostics := [construction_error "earlier failure"];
                  DataSourceData := Some 0;
                  ResourceData := Some 0 |};
       environ := ∅;
       clients := [{| HomeserverURL := "https://matrix.org";
                      UserID := "@a:matrix.org";
                      AccessToken := "abc" |}];
       calls := [] |} in
  Configure example_NewClient context_Background example_request st
  = (Returned, st).
Proof.
  intros st.
  exact (error_in_response_stops_Configure example_NewClient
           context_Background example_request st (or_introl eq_refl)).
Defined.

Lemma successive_cycles_build_independent_clients_witness :
  let st1 := configure_cycle example_NewClient context_Background ∅ []
               example_request in
  let st2 := configure_cycle example_NewClient context_Background ∅
               (clients st1) example_request in
  ∃ p1 p2,
    p1 ≠ p2
    ∧ DataSourceData (resp st1) = Some p1
    ∧ DataSourceData (resp st2) = Some p2.
Proof.
  intros st1 st2.
  destruct (successive_cycles_build_independent_clients example_NewClient
              context_Background ∅ [] example_request)
    as (_ & p1 & p2 & c & Hne & H1 & _ & H2 & _).
  - vm_compute. reflexivity.
  - exists p1, p2. split; [exact Hne | split; [exact H1 | exact H2]].
Defined.

Lemma cycle_reads_three_variables_only_witness :
  let env1 : gmap string string :=
    {[ "MATRIX_CLIENT_SERVER_URL" := "https://x"; "HOME" := "/root" ]} in
  let env2 : gmap string string :=
    {[ "MATRIX_CLIENT_SERVER_URL" := "https://x"; "MATRIX_TOKEN" := "abc" ]} in
  resp (example_cycle env1 zero_MatrixProviderModel)
  = resp (example_cycle env2 zero_MatrixProviderModel).
Proof.
  intros env1 env2.
  refine (proj1 (cycle_reads_three_variables_only example_NewClient
                   context_Background env1 env2 []
                   {| Config := Decodable zero_MatrixProviderModel |} _)).
  intros f. destruct f; vm_compute; reflexivity.
Defined.

Lemma concrete_configuration_ignores_environment_witness :
  resp (example_cycle ∅ example_config)
  = resp (example_cycle
            {[ "MATRIX_CLIENT_SERVER_URL" := "https://elsewhere" ]}
            example_config).
Proof.
  refine (proj1 (concrete_configuration_ignores_environment
                   example_NewClient context_Background ∅
                   {[ "MATRIX_CLIENT_SERVER_URL" := "https://elsewhere" ]}
                   [] example_config _)).
  intros f. destruct f; eexists; reflexivity.
Defined.

Lemma unknown_value_not_rescued_by_environment_witness :
  let config :=
    {| ClientServerUrl := StringValue "https://matrix.org";
       DefaultAccessToken := StringUnknown;
       DefaultUserID := StringValue "@a:matrix.org" |} in
  let st := example_cycle {[ "MATRIX_DEFAULT_ACCESS_TOKEN" := "abc" ]}
              config in
  resp (example_cycle ∅ config) = resp st
  ∧ unknown_error FieldDefaultAccessToken ∈ Diagnostics (resp st).
Proof.
  intros config st.
  destruct (unknown_value_not_rescued_by_environment example_NewClient
              context_Background ∅
              {[ "MATRIX_DEFAULT_ACCESS_TOKEN" := "abc" ]} [] config
              FieldDefaultAccessToken eq_refl)
    as (Hresp & Hin & _).
  split; [exact Hresp | exact Hin].
Defined.


Lemma diagnostics_scoped_to_declared_attributes_witness :
  "client_server_url" ∈ MatrixProviderModel_tfsdk
  ∧ ∃ attr,
      Attributes (SchemaResponse_Schema (Schema zero_SchemaResponse))
        !! "client_server_url" = Some attr
      ∧ Required attr = true.
Proof.
  refine (diagnostics_scoped_to_declared_attributes example_NewClient
            context_Background ∅ []
            {| ClientServerUrl := StringUnknown;
               DefaultAccessToken := StringValue "abc";
               DefaultUserID := StringNull |}
            zero_SchemaResponse
            (unknown_error FieldClientServerUrl) "client_server_url" _ _).
  - apply list_elem_of_In. vm_compute. left. reflexivity.
  - reflexivity.
Defined.

Lemma masked_keys_are_the_sensitive_attributes_witness :
  ∃ attr,
    Attributes (SchemaResponse_Schema (Schema zero_SchemaResponse))
      !! "default_access_token" = Some attr
    ∧ Sensitive attr = true.
Proof.
  refine (proj1 (masked_keys_are_the_sensitive_attributes example_NewClient
                   context_Background ∅ [] example_request
                   zero_SchemaResponse ["default_access_token"] _
                   "default_access_token") _).
  - apply list_elem_of_In. vm_compute. do 3 right. left. reflexivity.
  - apply list_elem_of_singleton. reflexivity.
Defined.

Lemma NewClient_called_on_validated_values_witness :
  "https://matrix.org" ≠ ""
  ∧ "@meow:matrix.org" ≠ ""
  ∧ "MDAxSomeRandomString" ≠ "".
Proof.
  destruct (NewClient_called_on_validated_values example_NewClient
              context_Background ∅ [] example_request
              "https://matrix.org" "@meow:matrix.org"
              "MDAxSomeRandomString" (Ok 0))
    as (_ & _ & _ & Hurl & Huid & Htok & _).
  - apply list_elem_of_In. vm_compute. do 5 right. left. reflexivity.
  - split; [exact Hurl | split; [exact Huid | exact Htok]].
Defined.
